(** * process_rules.py: line classification, merge and rendering

    A shallow embedding of the rule pipeline of [scripts/process_rules.py]:
    [is_bad_line], [extract_domain_token], [to_surge_line], [to_qx_line]
    and the loops of [merge_and_write].

    Python strings are modelled as lists of characters ([list ascii]).
    The embedding covers text in the ASCII range (code points below 128):
    [str.strip], [str.upper], [str.lower], the regular-expression classes
    [\s] and [\d] and the flag [re.I] are given their ASCII behaviour.
    The values 128 to 255 of [ascii] stand for no Python character: the
    functions below leave them unchanged and take them for neither
    whitespace, letter, digit nor line boundary. Outside the ASCII range
    Python differs ([str.upper] may lengthen a string and create ASCII
    letters, further characters are whitespace or line boundaries); the
    statements that depend on it say so. *)

From Stdlib Require Import Ascii String NArith.
From stdpp Require Import base decidable option list gmap strings.

Local Open Scope char_scope.
Local Open Scope list_scope.

(** ** Strings and characters *)

Definition str := list ascii.

(** A Python string literal. *)
Definition lit (s : string) : str := list_ascii_of_string s.

Definition code (c : ascii) : N := N_of_ascii c.

Definition between (lo hi : N) (c : ascii) : bool :=
  ((lo <=? code c) && (code c <=? hi))%N.

(** [c.isspace()], the class [\s], and the characters removed by
    [str.strip()]: TAB LF VT FF CR, FS GS RS US and the space. *)
Definition isspace (c : ascii) : bool := between 9 13 c || between 28 32 c.

(** The classes [[0-9]] and [\d]. *)
Definition isdigit (c : ascii) : bool := between 48 57 c.

Definition upper_char (c : ascii) : ascii :=
  if between 97 122 c then ascii_of_N (code c - 32) else c.

Definition lower_char (c : ascii) : ascii :=
  if between 65 90 c then ascii_of_N (code c + 32) else c.

(** [s.upper()] and [s.lower()]. *)
Definition upper (s : str) : str := map upper_char s.
Definition lower (s : str) : str := map lower_char s.

Definition char_eqb (a b : ascii) : bool := Ascii.eqb a b.

(** [s.lstrip()], [s.rstrip()], [s.strip()]. *)
Fixpoint lstrip (s : str) : str :=
  match s with
  | c :: s' => if isspace c then lstrip s' else s
  | [] => []
  end.

Definition rstrip (s : str) : str := rev (lstrip (rev s)).

Definition strip (s : str) : str := rstrip (lstrip s).

(** [s.startswith(p)]. *)
Fixpoint startswith (p s : str) : bool :=
  match p, s with
  | [], _ => true
  | a :: p', b :: s' => char_eqb a b && startswith p' s'
  | _ :: _, [] => false
  end.

(** [p in s] on strings: [p] occurs in [s] as a contiguous substring. *)
Fixpoint contains (p s : str) : bool :=
  startswith p s ||
  match s with
  | [] => false
  | _ :: s' => contains p s'
  end.

(** [c in s] for a one-character literal [c]. *)
Definition has_char (c : ascii) (s : str) : bool := existsb (char_eqb c) s.

(** ** Constants *)

Definition BAD_PATTERNS : list str :=
  [ lit "DOMAIN,this_ruleset_is_made_by_sukkaw.ruleset.skk.moe";
    lit "7h1s_rul35et_i5_mad3_by_5ukk4w-ruleset.skk.moe";
    lit "chat.z.ai" ].

(** ** is_bad_line *)

Definition is_bad_line (line : str) : bool :=
  match line with
  | [] => true
  | _ =>
      if existsb (fun pat => contains pat line) BAD_PATTERNS then true
      else if startswith (lit "#") (strip line) then true
      else false
  end.

(** ** The regular expressions of extract_domain_token *)

(** [\s+#] matched at the start of [s]: a whitespace character, the
    rest of the whitespace run, then [#]. *)
Definition ws_hash_here (s : str) : bool :=
  match s with
  | c :: s' =>
      isspace c &&
      match lstrip s' with
      | h :: _ => char_eqb h "#"
      | [] => false
      end
  | [] => false
  end.

(** [re.split(r'\s+#', line, 1)[0]]: the text before the leftmost match
    of [\s+#], the whole line when there is none. *)
Fixpoint re_split_comment (s : str) : str :=
  match s with
  | [] => []
  | c :: s' => if ws_hash_here s then [] else c :: re_split_comment s'
  end.

Definition IP_ALTERNATIVES : list str :=
  map lit ["IP"; "IP-CIDR"; "GEOIP"; "PORT"; "PROXY"; "PROCESS";
           "USER-AGENT"; "FINAL"]%string.

(** A literal [p] matched at the start of [s] under [re.I]. *)
Fixpoint match_ci (p s : str) : bool :=
  match p, s with
  | [], _ => true
  | a :: p', b :: s' => char_eqb (upper_char a) (upper_char b) && match_ci p' s'
  | _ :: _, [] => false
  end.

(** [re.search] with an alternation of literals and [re.I], as a truth
    value: some alternative matches at some position. *)
Fixpoint re_search_ci (alts : list str) (s : str) : bool :=
  existsb (fun p => match_ci p s) alts ||
  match s with
  | [] => false
  | _ :: s' => re_search_ci alts s'
  end.

(** [re.search(r'IP|IP-CIDR|GEOIP|PORT|PROXY|PROCESS|USER-AGENT|FINAL',
    left, re.I)]. *)
Definition re_search_ip (s : str) : bool := re_search_ci IP_ALTERNATIVES s.

Fixpoint skip_digits (s : str) : str :=
  match s with
  | c :: s' => if isdigit c then skip_digits s' else s
  | [] => []
  end.

(** [re.match(r'[0-9]+\.|\d+:', domain)] as a truth value: a non-empty
    run of digits at the start, followed by [.] or by [:]. *)
Definition re_match_digits (domain : str) : bool :=
  match domain with
  | c :: s' =>
      isdigit c &&
      match skip_digits s' with
      | x :: _ => char_eqb x "." || char_eqb x ":"
      | [] => false
      end
  | [] => false
  end.

(** [line.split(',', 1)] for a line holding a comma: the text before the
    first comma and the text after it. *)
Fixpoint split_comma (s : str) : str * str :=
  match s with
  | [] => ([], [])
  | c :: s' =>
      if char_eqb c "," then ([], s')
      else let '(l, r) := split_comma s' in (c :: l, r)
  end.

(** ** extract_domain_token *)

Definition token := (str * str)%type.

Definition is_empty (s : str) : bool :=
  match s with [] => true | _ => false end.

Definition extract_domain_token (line : str) : option token :=
  if is_empty line || is_empty (strip line) then None
  else
    let line := strip (re_split_comment line) in
    if is_bad_line line then None
    else if has_char "," line then
      let '(left_, right_) := split_comma line in
      let left_ := strip left_ in
      let domain := strip right_ in
      if re_search_ip left_ then None
      else if re_match_digits domain then None
      else Some (upper left_, domain)
    else if has_char " " line || has_char "/" line || has_char ":" line
    then None
    else Some (lit "DOMAIN", line).

(** ** Rendering *)

Definition to_surge_line (tok domain : str) : str :=
  tok ++ "," :: domain.

Definition qx_mapping : list (str * str) :=
  [ (lit "DOMAIN-SUFFIX", lit "host-suffix");
    (lit "DOMAIN", lit "host");
    (lit "DOMAIN-KEYWORD", lit "host-keyword");
    (lit "DOMAIN-WILDCARD", lit "host-wildcard") ].

(** [mapping.get(k, default)] on a dict literal with distinct keys. *)
Fixpoint dict_get (m : list (str * str)) (k default : str) : str :=
  match m with
  | [] => default
  | (k', v) :: m' => if decide (k' = k) then v else dict_get m' k default
  end.

Definition to_qx_line (tok domain : str) : str :=
  let t := dict_get qx_mapping tok (lower tok) in
  t ++ "," :: domain.

(** ['\n'.join(ls)]. *)
Fixpoint join_nl (ls : list str) : str :=
  match ls with
  | [] => []
  | [l] => l
  | l :: ls' => l ++ "010" :: join_nl ls'
  end.

(** ** load_lines_from_sources *)

(** The line boundaries of [str.splitlines()] in the ASCII range:
    LF VT FF CR and FS GS RS. *)
Definition is_linebreak (c : ascii) : bool := between 10 13 c || between 28 30 c.

(** [text.splitlines()]: the lines of [text] without their terminators;
    CR LF is one terminator, and a terminator at the very end opens no
    further line. *)
Fixpoint splitlines (s : str) : list str :=
  match s with
  | [] => []
  | c :: s' =>
      if is_linebreak c then
        [] :: match s' with
              | d :: s'' =>
                  if char_eqb c "013" && char_eqb d "010" then splitlines s''
                  else splitlines s'
              | [] => []
              end
      else
        match splitlines s' with
        | [] => [[c]]
        | l :: ls => (c :: l) :: ls
        end
  end.

(** [ln.rstrip('\n')]. *)
Fixpoint lstrip_nl (s : str) : str :=
  match s with
  | c :: s' => if char_eqb c "010" then lstrip_nl s' else s
  | [] => []
  end.

Definition rstrip_nl (s : str) : str := rev (lstrip_nl (rev s)).

(** The sources are given by what reading them produced: [Some text],
    or [None] for a source that could not be fetched or is missing (the
    loop prints a message and continues). *)
Definition load_lines_from_sources (sources : list (option str)) : list str :=
  fold_left
    (fun lines src =>
       match src with
       | None => lines
       | Some text => lines ++ map rstrip_nl (splitlines text)
       end)
    sources [].

(** ** merge_and_write *)

(** One round of the first loop: the pre-check, then the classifier. *)
Definition entry_of_line (ln : str) : option token :=
  if is_bad_line ln then None else extract_domain_token ln.

Definition entries_of (raw_lines : list str) : list token :=
  fold_left
    (fun entries ln =>
       match entry_of_line ln with
       | None => entries
       | Some ed => entries ++ [ed]
       end)
    raw_lines [].

(** [(t.lower(), d.lower())]. *)
Definition key_of (e : token) : token := (lower e.1, lower e.2).

(** One round of the second loop on the state [(seen, uniq)]. *)
Definition dedup_step (st : gset token * list token) (e : token)
  : gset token * list token :=
  let key := key_of e in
  if decide (key ∈ st.1) then st
  else ({[ key ]} ∪ st.1, st.2 ++ [e]).

Definition uniq_of (entries : list token) : list token :=
  (fold_left dedup_step entries (∅, [])).2.

(** The token list [uniq] that [merge_and_write] computes from the raw
    lines. *)
Definition merge (raw_lines : list str) : list token :=
  uniq_of (entries_of raw_lines).

(** ['\n'.join(surge_lines) + '\n'] and ['\n'.join(qx_lines) + '\n']. *)
Definition surge_text (uniq : list token) : str :=
  join_nl (map (fun e => to_surge_line e.1 e.2) uniq) ++ ["010"].

Definition qx_text (uniq : list token) : str :=
  join_nl (map (fun e => to_qx_line e.1 e.2) uniq) ++ ["010"].

(** The contents written to [surge_out] and to [qx_out]. *)
Definition merge_and_write (group_sources : list (option str)) : str * str :=
  let raw_lines := load_lines_from_sources group_sources in
  let uniq := merge raw_lines in
  (surge_text uniq, qx_text uniq).

(** ** Auxiliary notions used in the statements *)

(** [p] occurs in [s] as a contiguous substring. *)
Definition substring (p s : str) : Prop :=
  ∃ pre post, s = pre ++ p ++ post.

(** [p] occurs in [s] when both are compared without regard to case. *)
Definition ci_substring (p s : str) : Prop :=
  ∃ pre mid post, s = pre ++ mid ++ post ∧ lower mid = lower p.


(** The line holds a BadPatternSet substring. *)
Definition has_bad_pattern (line : str) : bool :=
  existsb (fun pat => contains pat line) BAD_PATTERNS.

(** No whitespace at the first position. *)
Definition lead_ok (s : str) : bool :=
  match s with
  | c :: _ => negb (isspace c)
  | [] => true
  end.

(** No whitespace at either end: the fixed points of [strip]. *)
Definition clean (s : str) : bool := lead_ok s && lead_ok (rev s).

(** [\s+#] matches somewhere in [s]. *)
Fixpoint has_ws_hash (s : str) : bool :=
  ws_hash_here s ||
  match s with
  | [] => false
  | _ :: s' => has_ws_hash s'
  end.

(** The line holds no line boundary of [splitlines]. *)
Definition one_line (s : str) : bool := forallb (fun c => negb (is_linebreak c)) s.

(** The second loop as a recursion on the entries still to visit. *)
Fixpoint dedup_from (seen : gset token) (entries : list token) : list token :=
  match entries with
  | [] => []
  | e :: es =>
      if decide (key_of e ∈ seen) then dedup_from seen es
      else e :: dedup_from ({[ key_of e ]} ∪ seen) es
  end.

(** Raw line number [n] is the first one whose entry has key [k]. *)
Definition first_line_for (k : token) (raw_lines : list str) (n : nat) : Prop :=
  (∃ ln e, raw_lines !! n = Some ln ∧ entry_of_line ln = Some e ∧ key_of e = k) ∧
  (∀ m ln e, m < n → raw_lines !! m = Some ln → entry_of_line ln = Some e →
             key_of e ≠ k).

(** The type names of the QX form as the specification lists them: the
    four mapped types, and the lowercased type for every other one. *)
Definition qx_type_spec (t : str) : str :=
  if decide (t = lit "DOMAIN-SUFFIX") then lit "host-suffix"
  else if decide (t = lit "DOMAIN") then lit "host"
  else if decide (t = lit "DOMAIN-KEYWORD") then lit "host-keyword"
  else if decide (t = lit "DOMAIN-WILDCARD") then lit "host-wildcard"
  else lower t.

(** What holds of the two fields of every token that
    extract_domain_token returns. *)
Definition token_shape (t d : str) : Prop :=
  clean t = true ∧ clean d = true ∧
  has_char "," t = false ∧
  has_ws_hash t = false ∧ has_ws_hash d = false ∧
  startswith (lit "#") t = false ∧
  upper t = t ∧ re_search_ip t = false.

(** What the rendered line of a token needs for its classification to
    reach the keyword test: the part of [token_shape] that does not
    speak of the IP-type keywords. *)
Definition rendered_shape (t d : str) : Prop :=
  clean t = true ∧ clean d = true ∧
  has_char "," t = false ∧
  has_ws_hash t = false ∧ has_ws_hash d = false ∧
  startswith (lit "#") t = false ∧
  upper t = t.

(** A character of the ASCII range. *)
Definition is_ascii (c : ascii) : bool := (code c <? 128)%N.

(** The rejections that the round-trip property names, applied to a
    rendered line [TYPE,domain]: an IP-type keyword in the type, a digit
    prefix of the domain, a space, a [/] or a [:] anywhere in the line. *)
Definition fails_listed_heuristics (line : str) : bool :=
  re_search_ip (strip (split_comma line).1) ||
  re_match_digits (strip (split_comma line).2) ||
  has_char " " line || has_char "/" line || has_char ":" line.

(** The Surge text read back: split into lines, each line classified. *)
Definition reclassify (text : str) : list token :=
  omap extract_domain_token (splitlines text).

(** ** The local path of a mirrored file (crawl_and_mirror) *)

(** [rel.find('/')]: the index of the first [/], None for the result -1. *)
Fixpoint find_slash (s : str) : option nat :=
  match s with
  | [] => None
  | c :: s' => if char_eqb c "/" then Some 0 else S <$> find_slash s'
  end.

(** [os.path.basename(p)] on POSIX: the text after the last [/]. *)
Fixpoint basename (p : str) : str :=
  match p with
  | [] => []
  | _ :: p' => if has_char "/" p then basename p' else p
  end.

(** [s.endswith('/')]. *)
Definition ends_with_slash (s : str) : bool :=
  match rev s with
  | c :: _ => char_eqb c "/"
  | [] => false
  end.

(** [os.path.join(a, b)] on POSIX: an absolute [b] replaces [a]; a
    separator is inserted unless [a] is empty or ends with one. *)
Definition path_join (a b : str) : str :=
  if startswith (lit "/") b then b
  else if is_empty a || ends_with_slash a then a ++ b
  else a ++ "/" :: b.

(** The local path that crawl_and_mirror computes from [rel], the path
    component of the URL of a remote file. *)
Definition mirror_local_path (dest rel : str) : str :=
  let relpath :=
    match find_slash rel with
    | Some idx => drop (idx + 1) rel
    | None => basename rel
    end in
  path_join dest relpath.

(** The first character of the line that is not whitespace is [#]. *)
Definition starts_comment (line : str) : bool :=
  match lstrip line with
  | h :: _ => char_eqb h "#"
  | [] => false
  end.

(** * Properties *)

(** ** Characters *)

Ltac by_cases_on_char c :=
  destruct c as [[] [] [] [] [] [] [] []]; vm_compute; try reflexivity; try congruence.

Lemma char_eqb_eq a b : char_eqb a b = true ↔ a = b.
Proof. apply Ascii.eqb_eq. Qed.

Lemma char_eqb_refl a : char_eqb a a = true.
Proof. by apply char_eqb_eq. Qed.

Lemma char_eqb_neq a b : char_eqb a b = false ↔ a ≠ b.
Proof. apply Ascii.eqb_neq. Qed.

Lemma upper_char_idem c : upper_char (upper_char c) = upper_char c.
Proof. by_cases_on_char c. Qed.

Lemma lower_upper_char c : lower_char (upper_char c) = lower_char c.
Proof. by_cases_on_char c. Qed.

Lemma upper_lower_char c : upper_char (lower_char c) = upper_char c.
Proof. by_cases_on_char c. Qed.

Lemma isspace_upper_char c : isspace (upper_char c) = isspace c.
Proof. by_cases_on_char c. Qed.

Lemma is_linebreak_upper_char c : is_linebreak (upper_char c) = is_linebreak c.
Proof. by_cases_on_char c. Qed.

Lemma upper_char_hash c : char_eqb (upper_char c) "#" = char_eqb c "#".
Proof. by_cases_on_char c. Qed.

Lemma upper_char_comma c : char_eqb "," (upper_char c) = char_eqb "," c.
Proof. by_cases_on_char c. Qed.

Lemma isspace_not_hash c : isspace c = true → char_eqb c "#" = false.
Proof. by_cases_on_char c. Qed.

Lemma isdigit_not_sep c : isdigit c = true → char_eqb c "." || char_eqb c ":" = false.
Proof. by_cases_on_char c. Qed.

Lemma same_case_blind a b :
  upper_char a = upper_char b ↔ lower_char a = lower_char b.
Proof.
  split; intros H.
  - rewrite <- (lower_upper_char a), <- (lower_upper_char b). by rewrite H.
  - rewrite <- (upper_lower_char a), <- (upper_lower_char b). by rewrite H.
Qed.

(** ** Substrings and membership *)

Lemma startswith_spec p s : startswith p s = true ↔ ∃ post, s = p ++ post.
Proof.
  revert s. induction p as [|a p IH]; intros s; simpl.
  - split; eauto.
  - destruct s as [|b s]; simpl.
    + split; [done | intros [post H]; discriminate].
    + rewrite andb_true_iff, char_eqb_eq, IH. split.
      * intros [-> [post ->]]. eauto.
      * intros [post H]. injection H as -> ->. eauto.
Qed.

Lemma contains_spec p s : contains p s = true ↔ substring p s.
Proof.
  unfold substring. induction s as [|c s IH]; simpl.
  - rewrite orb_false_r, startswith_spec. split.
    + intros [post H]. by exists [], post.
    + intros (pre & post & H). destruct pre; simpl in H; [eauto | discriminate].
  - rewrite orb_true_iff, startswith_spec, IH. split.
    + intros [[post H] | (pre & post & H)].
      * by exists [], post.
      * exists (c :: pre), post. by rewrite H.
    + intros (pre & post & H). destruct pre as [|x pre]; simpl in H.
      * left. eauto.
      * right. injection H as -> ->. eauto.
Qed.

Lemma has_char_spec c s : has_char c s = true ↔ c ∈ s.
Proof.
  unfold has_char. induction s as [|x s IH]; simpl.
  - split; [done | by intros ?%elem_of_nil].
  - by rewrite orb_true_iff, char_eqb_eq, IH, elem_of_cons.
Qed.

Lemma has_char_false c s : has_char c s = false ↔ c ∉ s.
Proof. rewrite <- has_char_spec. by destruct (has_char c s). Qed.

Lemma has_char_app c a b : has_char c (a ++ b) = has_char c a || has_char c b.
Proof. unfold has_char. apply existsb_app. Qed.

Lemma has_bad_pattern_spec line :
  has_bad_pattern line = true ↔ ∃ pat, pat ∈ BAD_PATTERNS ∧ substring pat line.
Proof.
  unfold has_bad_pattern. rewrite existsb_exists.
  split; intros (pat & Hin & H); exists pat.
  - split; [by apply list_elem_of_In | by apply contains_spec].
  - split; [by apply list_elem_of_In | by apply contains_spec].
Qed.

(** ** strip *)

Lemma lstrip_decomp s : ∃ ws, s = ws ++ lstrip s ∧ forallb isspace ws = true.
Proof.
  induction s as [|c s (ws & Hs & Hws)]; simpl.
  - by exists [].
  - destruct (isspace c) eqn:Hc.
    + exists (c :: ws). simpl. rewrite Hc, Hws. split; [by f_equal | done].
    + by exists [].
Qed.

Lemma lead_ok_lstrip s : lead_ok (lstrip s) = true.
Proof.
  induction s as [|c s IH]; simpl; [done|].
  destruct (isspace c) eqn:Hc; [done|]. simpl. by rewrite Hc.
Qed.

Lemma lstrip_fix s : lead_ok s = true → lstrip s = s.
Proof. destruct s as [|c s]; simpl; [done|]. by destruct (isspace c). Qed.

Lemma lstrip_app a b :
  lstrip (a ++ b) = match lstrip a with [] => lstrip b | _ => lstrip a ++ b end.
Proof.
  induction a as [|c a IH]; simpl; [done|].
  destruct (isspace c); [done|]. done.
Qed.

Lemma lead_ok_app_l a b : lead_ok (a ++ b) = true → lead_ok a = true.
Proof. by destruct a. Qed.

Lemma forallb_rev_eq (f : ascii → bool) s : forallb f (rev s) = forallb f s.
Proof.
  induction s as [|c s IH]; simpl; [done|].
  rewrite forallb_app, IH. simpl. rewrite andb_true_r. apply andb_comm.
Qed.

Lemma rstrip_decomp s : ∃ ws, s = rstrip s ++ ws ∧ forallb isspace ws = true.
Proof.
  unfold rstrip. destruct (lstrip_decomp (rev s)) as (ws & Hs & Hws).
  exists (rev ws). split.
  - rewrite <- rev_app_distr, <- Hs. by rewrite rev_involutive.
  - by rewrite forallb_rev_eq.
Qed.

Lemma strip_decomp s :
  ∃ w1 w2, s = w1 ++ strip s ++ w2 ∧
           forallb isspace w1 = true ∧ forallb isspace w2 = true.
Proof.
  unfold strip.
  destruct (lstrip_decomp s) as (w1 & H1 & Hw1).
  destruct (rstrip_decomp (lstrip s)) as (w2 & H2 & Hw2).
  exists w1, w2. split; [|done]. by rewrite <- H2.
Qed.

Lemma lead_ok_rstrip s : lead_ok s = true → lead_ok (rstrip s) = true.
Proof.
  intros H. destruct (rstrip_decomp s) as (ws & Hs & _).
  rewrite Hs in H. by apply lead_ok_app_l in H.
Qed.

Lemma clean_strip s : clean (strip s) = true.
Proof.
  unfold clean, strip. apply andb_true_iff. split.
  - apply lead_ok_rstrip, lead_ok_lstrip.
  - unfold rstrip. rewrite rev_involutive. apply lead_ok_lstrip.
Qed.

Lemma strip_fix s : clean s = true → strip s = s.
Proof.
  unfold clean, strip, rstrip. intros [H1 H2]%andb_true_iff.
  rewrite (lstrip_fix s H1), (lstrip_fix _ H2). apply rev_involutive.
Qed.

Lemma strip_idem s : strip (strip s) = strip s.
Proof. apply strip_fix, clean_strip. Qed.

Lemma lstrip_upper s : lstrip (upper s) = upper (lstrip s).
Proof.
  induction s as [|c s IH]; simpl; [done|].
  rewrite isspace_upper_char. by destruct (isspace c).
Qed.

Lemma rstrip_upper s : rstrip (upper s) = upper (rstrip s).
Proof.
  unfold rstrip. unfold upper at 1. rewrite <- map_rev.
  change (map upper_char (rev s)) with (upper (rev s)).
  rewrite lstrip_upper. unfold upper. by rewrite map_rev.
Qed.

Lemma strip_upper s : strip (upper s) = upper (strip s).
Proof. unfold strip. by rewrite lstrip_upper, rstrip_upper. Qed.

Lemma lead_ok_upper s : lead_ok (upper s) = lead_ok s.
Proof. destruct s as [|c s]; simpl; [done|]. by rewrite isspace_upper_char. Qed.

Lemma clean_upper s : clean (upper s) = clean s.
Proof.
  unfold clean. rewrite lead_ok_upper. unfold upper at 1.
  rewrite <- map_rev. fold (upper (rev s)). by rewrite lead_ok_upper.
Qed.

Lemma clean_join a c b :
  clean a = true → clean b = true → isspace c = false → clean (a ++ c :: b) = true.
Proof.
  unfold clean. intros [Ha Ha']%andb_true_iff [Hb Hb']%andb_true_iff Hc.
  apply andb_true_iff. split.
  - destruct a; simpl in *; [by rewrite Hc | done].
  - rewrite rev_app_distr. simpl. rewrite <- app_assoc. simpl.
    destruct (rev b); simpl in *; [by rewrite Hc | done].
Qed.

Lemma strip_nil_iff s : strip s = [] ↔ forallb isspace s = true.
Proof.
  split; intros H.
  - destruct (strip_decomp s) as (w1 & w2 & Hs & H1 & H2).
    rewrite Hs, H. simpl. by rewrite forallb_app, H1, H2.
  - assert (lstrip s = []) as Hl.
    { induction s as [|c s IH]; simpl in *; [done|].
      apply andb_true_iff in H as [-> H]. by apply IH. }
    unfold strip. by rewrite Hl.
Qed.

(** ** The regular expressions *)

Lemma match_ci_spec p s :
  match_ci p s = true ↔ ∃ mid post, s = mid ++ post ∧ lower mid = lower p.
Proof.
  revert s. induction p as [|a p IH]; intros s; simpl.
  - split; [by exists [], s | done].
  - destruct s as [|b s].
    + split; [done|]. intros (mid & post & Hs & Hm).
      symmetry in Hs. apply app_eq_nil in Hs as [-> _]. discriminate.
    + rewrite andb_true_iff, char_eqb_eq, IH, same_case_blind. split.
      * intros (Hab & mid & post & -> & Hm). exists (b :: mid), post.
        split; [done|]. simpl. by rewrite Hab, Hm.
      * intros (mid & post & Hs & Hm). destruct mid as [|x mid]; [discriminate|].
        simpl in Hs, Hm. injection Hs as <- ->. injection Hm as Hab Hm. eauto.
Qed.

Lemma re_search_ci_spec alts s :
  re_search_ci alts s = true ↔ ∃ kw, kw ∈ alts ∧ ci_substring kw s.
Proof.
  unfold ci_substring. induction s as [|c s IH].
  - simpl. rewrite orb_false_r, existsb_exists. split.
    + intros (kw & Hin & (mid & post & Hs & Hm)%match_ci_spec).
      exists kw. split; [by apply list_elem_of_In|]. by exists [], mid, post.
    + intros (kw & Hin & pre & mid & post & Hs & Hm).
      exists kw. split; [by apply list_elem_of_In|].
      apply match_ci_spec. destruct pre; [|discriminate]. simpl in Hs. eauto.
  - simpl. rewrite orb_true_iff, existsb_exists, IH. split.
    + intros [(kw & Hin & (mid & post & Hs & Hm)%match_ci_spec)
             | (kw & Hin & pre & mid & post & Hs & Hm)].
      * exists kw. split; [by apply list_elem_of_In|]. by exists [], mid, post.
      * exists kw. split; [done|]. exists (c :: pre), mid, post. by rewrite Hs.
    + intros (kw & Hin & pre & mid & post & Hs & Hm).
      destruct pre as [|x pre]; simpl in Hs.
      * left. exists kw. split; [by apply list_elem_of_In|].
        apply match_ci_spec. eauto.
      * right. injection Hs as -> ->. exists kw. split; [done|]. eauto.
Qed.

Lemma re_search_ip_spec s :
  re_search_ip s = true ↔ ∃ kw, kw ∈ IP_ALTERNATIVES ∧ ci_substring kw s.
Proof. apply re_search_ci_spec. Qed.




Lemma split_comma_app l rt :
  "," ∉ l → split_comma (l ++ "," :: rt) = (l, rt).
Proof.
  induction l as [|c l IH]; simpl; [done|].
  intros [Hc Hl]%not_elem_of_cons.
  assert (char_eqb c "," = false) as -> by (apply char_eqb_neq; congruence).
  by rewrite IH.
Qed.

Lemma comma_split s :
  "," ∈ s → ∃ l rt, s = l ++ "," :: rt ∧ "," ∉ l.
Proof.
  induction s as [|c s IH]; [by intros ?%elem_of_nil|].
  destruct (decide (c = ",")) as [->|Hc].
  - intros _. exists [], s. split; [done | apply not_elem_of_nil].
  - intros [?|Hs]%elem_of_cons; [congruence|].
    destruct (IH Hs) as (l & rt & -> & Hl). exists (c :: l), rt.
    split; [done|]. apply not_elem_of_cons. split; [congruence | done].
Qed.

(** ** is_bad_line and the guards of extract_domain_token *)

Lemma is_bad_line_false line :
  is_bad_line line = false ↔
  line ≠ [] ∧ has_bad_pattern line = false ∧
  startswith (lit "#") (strip line) = false.
Proof.
  unfold is_bad_line, has_bad_pattern. destruct line as [|c line].
  - split; [done | by intros [? _]].
  - destruct (existsb _ _); [split; [done | by intros (_ & ? & _)]|].
    destruct (startswith _ _); [split; [done | by intros (_ & _ & ?)]|].
    by repeat split.
Qed.

Lemma is_bad_line_pattern line : has_bad_pattern line = true → is_bad_line line = true.
Proof.
  unfold is_bad_line, has_bad_pattern. intros ->. by destruct line.
Qed.

Lemma re_split_comment_cons c s :
  re_split_comment (c :: s) =
  if ws_hash_here (c :: s) then [] else c :: re_split_comment s.
Proof. reflexivity. Qed.

Lemma re_split_prefix s : ∃ q, s = re_split_comment s ++ q.
Proof.
  induction s as [|c s [q Hq]].
  - by exists [].
  - rewrite re_split_comment_cons. destruct (ws_hash_here (c :: s)).
    + by exists (c :: s).
    + exists q. simpl. by f_equal.
Qed.

Lemma blank_remainder line :
  is_empty line || is_empty (strip line) = true →
  strip (re_split_comment line) = [].
Proof.
  intros H. apply strip_nil_iff.
  assert (forallb isspace line = true) as Hall.
  { apply orb_true_iff in H as [H|H].
    - by destruct line.
    - apply strip_nil_iff. by destruct (strip line). }
  destruct (re_split_prefix line) as [q Hq]. rewrite Hq in Hall.
  rewrite forallb_app in Hall. by apply andb_true_iff in Hall as [? _].
Qed.

(** The branches of extract_domain_token once the remainder passed the
    bad-line test. *)
Lemma extract_unfold line :
  let r := strip (re_split_comment line) in
  is_bad_line r = false →
  extract_domain_token line =
    if has_char "," r then
      let left_ := strip (split_comma r).1 in
      let domain := strip (split_comma r).2 in
      if re_search_ip left_ then None
      else if re_match_digits domain then None
      else Some (upper left_, domain)
    else if has_char " " r || has_char "/" r || has_char ":" r then None
    else Some (lit "DOMAIN", r).
Proof.
  intros r Hr. unfold extract_domain_token. fold r.
  destruct (is_empty line || is_empty (strip line)) eqn:Hblank.
  - apply blank_remainder in Hblank. fold r in Hblank. by rewrite Hblank in Hr.
  - rewrite Hr. by destruct (split_comma r).
Qed.

Lemma extract_bad line :
  is_bad_line (strip (re_split_comment line)) = true →
  extract_domain_token line = None.
Proof.
  intros H. unfold extract_domain_token. rewrite H.
  by destruct (is_empty line || is_empty (strip line)).
Qed.

(** ** The classifier *)

(** C1, as stated, does not hold of extract_domain_token: the line
    [good.com #chat.z.ai] holds the bad pattern [chat.z.ai] in its inline
    comment only, and extract_domain_token returns the token
    [(DOMAIN, good.com)] for it, because it strips the comment before it
    tests for bad patterns. *)
Lemma bad_pattern_in_comment_not_rejected :
  ¬ (∀ line pat, pat ∈ BAD_PATTERNS → substring pat line →
                 extract_domain_token line = None).
Proof.
  intros H.
  specialize (H (lit "good.com #chat.z.ai") (lit "chat.z.ai")).
  assert (extract_domain_token (lit "good.com #chat.z.ai") = None) as Hnone.
  { apply H.
    - do 2 apply list_elem_of_further. apply list_elem_of_here.
    - by exists (lit "good.com #"), []. }
  vm_compute in Hnone. discriminate.
Qed.

(** C1, amended: a line whose original text holds a BadPatternSet
    substring is bad for is_bad_line, so the pre-check of merge_and_write
    drops it and it yields no entry; extract_domain_token itself returns
    None whenever the substring occurs in the remainder left by comment
    stripping and trimming. *)
Theorem bad_pattern_rejection line pat :
  pat ∈ BAD_PATTERNS →
  (substring pat line → is_bad_line line = true ∧ entry_of_line line = None) ∧
  (substring pat (strip (re_split_comment line)) →
   extract_domain_token line = None).
Proof.
  intros Hpat. split; intros Hsub.
  - assert (is_bad_line line = true) as Hbad.
    { apply is_bad_line_pattern, has_bad_pattern_spec. eauto. }
    split; [done|]. unfold entry_of_line. by rewrite Hbad.
  - apply extract_bad, is_bad_line_pattern, has_bad_pattern_spec. eauto.
Qed.

Lemma bad_pattern_rejection_witness :
  (is_bad_line (lit "good.com #chat.z.ai") = true ∧
   entry_of_line (lit "good.com #chat.z.ai") = None) ∧
  extract_domain_token (lit "DOMAIN,chat.z.ai  # note") = None.
Proof.
  assert (lit "chat.z.ai" ∈ BAD_PATTERNS) as Hpat.
  { do 2 apply list_elem_of_further. apply list_elem_of_here. }
  split.
  - apply (bad_pattern_rejection (lit "good.com #chat.z.ai") _ Hpat).
    by exists (lit "good.com #"), [].
  - apply (bad_pattern_rejection (lit "DOMAIN,chat.z.ai  # note") _ Hpat).
    by exists (lit "DOMAIN,"), [].
Defined.



(** C6: when the remainder of a line passes the bad-line test (so it is
    not empty) and holds no comma, extract_domain_token returns None if
    the remainder holds a space, a [/] or a [:], and the token
    [(DOMAIN, remainder)] with the remainder unchanged otherwise. *)
Theorem bare_line_classification line :
  let r := strip (re_split_comment line) in
  is_bad_line r = false → "," ∉ r →
  (" " ∈ r ∨ "/" ∈ r ∨ ":" ∈ r → extract_domain_token line = None) ∧
  (" " ∉ r → "/" ∉ r → ":" ∉ r →
   extract_domain_token line = Some (lit "DOMAIN", r)).
Proof.
  intros r Hbad Hcomma.
  pose proof (extract_unfold line Hbad) as Hx. fold r in Hx.
  apply has_char_false in Hcomma. rewrite Hcomma in Hx. rewrite Hx. clear Hx.
  split.
  - intros [H | [H | H]]; apply has_char_spec in H; rewrite H;
      by rewrite ?orb_true_r.
  - intros H1%has_char_false H2%has_char_false H3%has_char_false.
    by rewrite H1, H2, H3.
Qed.

(** Scenario D, through the theorem: [plain.example.com] is classified as
    [(DOMAIN, plain.example.com)]. *)
Lemma bare_line_classification_witness :
  extract_domain_token (lit "plain.example.com")
  = Some (lit "DOMAIN", lit "plain.example.com").
Proof.
  destruct (bare_line_classification (lit "plain.example.com")) as [_ Hok].
  - reflexivity.
  - apply has_char_false. reflexivity.
  - apply Hok; apply has_char_false; reflexivity.
Defined.

(** C10: extract_domain_token returns tokens with an empty domain. The
    line [DOMAIN,], and the same line with only whitespace after the
    comma, yield the token DOMAIN with an empty domain; it renders as [DOMAIN,] and as
    [host,], and merge_and_write writes these lines. *)
Theorem empty_domain_accepted :
  extract_domain_token (lit "DOMAIN,") = Some (lit "DOMAIN", []) ∧
  extract_domain_token (lit "DOMAIN,  ") = Some (lit "DOMAIN", []) ∧
  to_surge_line (lit "DOMAIN") [] = lit "DOMAIN," ∧
  to_qx_line (lit "DOMAIN") [] = lit "host," ∧
  merge_and_write [Some (lit "DOMAIN,")]
  = (lit "DOMAIN," ++ ["010"], lit "host," ++ ["010"]).
Proof. repeat split; vm_compute; reflexivity. Qed.

(** ** Rendering *)

Lemma dict_get_qx t : dict_get qx_mapping t (lower t) = qx_type_spec t.
Proof.
  unfold qx_type_spec, qx_mapping. simpl.
  repeat (case_decide; [subst; repeat case_decide; done|]).
  repeat case_decide; congruence.
Qed.

(** C7: the QX text is the list of lines [qxType,domain], joined by
    newlines and followed by one newline, where [qxType] is the mapped
    name of the four mapped types and the lowercased type otherwise;
    Scenario E is the instance given. *)
Theorem qx_rendering :
  (∀ uniq,
     qx_text uniq
     = join_nl (map (fun e => qx_type_spec e.1 ++ "," :: e.2) uniq) ++ ["010"]) ∧
  qx_text [(lit "DOMAIN-SUFFIX", lit "a.com"); (lit "CUSTOM-TAG", lit "b.com")]
  = lit "host-suffix,a.com" ++ "010" :: lit "custom-tag,b.com" ++ ["010"].
Proof.
  split; [|vm_compute; reflexivity].
  intros uniq. unfold qx_text. do 2 f_equal.
  apply map_ext. intros [t d]. cbn [fst snd]. unfold to_qx_line. cbv zeta.
  by rewrite dict_get_qx.
Qed.

(** ** The loops of merge_and_write *)

Lemma entries_of_omap raw_lines :
  entries_of raw_lines = omap entry_of_line raw_lines.
Proof.
  unfold entries_of.
  enough (∀ acc,
    fold_left (fun entries ln =>
                 match entry_of_line ln with
                 | None => entries
                 | Some ed => entries ++ [ed]
                 end) raw_lines acc
    = acc ++ omap entry_of_line raw_lines) as H by apply H.
  induction raw_lines as [|ln lines IH]; intros acc; simpl.
  - by rewrite app_nil_r.
  - rewrite IH. destruct (entry_of_line ln); [|done].
    by rewrite <- app_assoc.
Qed.

Lemma fold_dedup_step entries st :
  (fold_left dedup_step entries st).2 = st.2 ++ dedup_from st.1 entries.
Proof.
  revert st. induction entries as [|e es IH]; intros [seen acc]; simpl.
  - by rewrite app_nil_r.
  - rewrite IH. unfold dedup_step. simpl.
    case_decide; simpl; [done|]. by rewrite <- app_assoc.
Qed.

Lemma uniq_of_dedup entries : uniq_of entries = dedup_from ∅ entries.
Proof. unfold uniq_of. by rewrite fold_dedup_step. Qed.

Lemma merge_eq raw_lines :
  merge raw_lines = dedup_from ∅ (omap entry_of_line raw_lines).
Proof. unfold merge. by rewrite uniq_of_dedup, entries_of_omap. Qed.

Lemma fresh_after_insert (k k' : token) (seen : gset token) :
  k ∉ {[ k' ]} ∪ seen → k ≠ k' ∧ k ∉ seen.
Proof. by rewrite not_elem_of_union, not_elem_of_singleton. Qed.

Lemma dedup_from_fresh seen entries e :
  e ∈ dedup_from seen entries → key_of e ∉ seen.
Proof.
  revert seen. induction entries as [|x es IH]; intros seen; simpl.
  - by intros ?%elem_of_nil.
  - case_decide as Hx; [apply IH|].
    intros [->|He]%elem_of_cons; [done|].
    apply IH in He. by apply fresh_after_insert in He as [_ ?].
Qed.

Lemma dedup_from_NoDup seen entries :
  NoDup (key_of <$> dedup_from seen entries).
Proof.
  revert seen. induction entries as [|x es IH]; intros seen; simpl.
  - constructor.
  - case_decide as Hx; [apply IH|].
    rewrite fmap_cons. apply NoDup_cons. split; [|apply IH].
    intros (e & He & Hin)%list_elem_of_fmap.
    apply dedup_from_fresh, fresh_after_insert in Hin as [Hne _]. congruence.
Qed.

Lemma dedup_from_sublist seen entries :
  dedup_from seen entries `sublist_of` entries.
Proof.
  revert seen. induction entries as [|x es IH]; intros seen; simpl.
  - constructor.
  - case_decide; [apply sublist_cons | apply sublist_skip]; apply IH.
Qed.

Lemma first_line_for_here ln e lines :
  entry_of_line ln = Some e → first_line_for (key_of e) (ln :: lines) 0.
Proof.
  intros He. split.
  - by exists ln, e.
  - intros m ? ? Hm. lia.
Qed.

Lemma first_line_for_skip k ln lines p :
  first_line_for k lines p →
  (∀ e, entry_of_line ln = Some e → key_of e ≠ k) →
  first_line_for k (ln :: lines) (S p).
Proof.
  intros [Hex Hmin] Hln. destruct Hex as (ln' & e & Hp & He & Hk). split.
  - by exists ln', e.
  - intros [|m] ln0 e0 Hm Hl0 He0.
    + simpl in Hl0. injection Hl0 as <-. by apply Hln.
    + simpl in Hl0. apply (Hmin m ln0 e0); [lia | done | done].
Qed.

(** What the second loop emits, for any set of keys seen before. *)
Lemma dedup_lines_member lines seen i a :
  dedup_from seen (omap entry_of_line lines) !! i = Some a →
  (key_of a ∉ seen) ∧
  ∃ p ln, first_line_for (key_of a) lines p ∧ lines !! p = Some ln ∧
          entry_of_line ln = Some a.
Proof.
  revert seen i. induction lines as [|ln lines IH]; intros seen i; simpl.
  - done.
  - destruct (entry_of_line ln) as [e|] eqn:He; simpl.
    + case_decide as Hseen.
      * intros (Ha & p & ln' & Hf & Hp & He')%IH. split; [done|].
        exists (S p), ln'. split; [|done].
        apply first_line_for_skip; [done|]. intros e0 He0.
        rewrite He in He0. injection He0 as <-. congruence.
      * destruct i as [|i]; simpl.
        -- intros [= <-]. split; [done|]. exists 0, ln.
           split; [by apply first_line_for_here | done].
        -- intros (Ha & p & ln' & Hf & Hp & He')%IH.
           apply fresh_after_insert in Ha as [Hne Ha].
           split; [done|]. exists (S p), ln'. split; [|done].
           apply first_line_for_skip; [done|]. intros e0 He0.
           rewrite He in He0. injection He0 as <-. congruence.
    + intros (Ha & p & ln' & Hf & Hp & He')%IH. split; [done|].
      exists (S p), ln'. split; [|done].
      apply first_line_for_skip; [done|]. intros e0 He0. congruence.
Qed.

Lemma first_line_for_unique k lines p q :
  first_line_for k lines p → first_line_for k lines q → p = q.
Proof.
  intros [Hex1 Hmin1] [Hex2 Hmin2].
  destruct Hex1 as (l1 & e1 & Hp & He1 & Hk1).
  destruct Hex2 as (l2 & e2 & Hq & He2 & Hk2).
  destruct (lt_eq_lt_dec p q) as [[Hlt|Heq]|Hgt]; [|done|].
  - by destruct (Hmin2 p l1 e1).
  - by destruct (Hmin1 q l2 e2).
Qed.

Lemma dedup_lines_order lines seen i j a b :
  dedup_from seen (omap entry_of_line lines) !! i = Some a →
  dedup_from seen (omap entry_of_line lines) !! j = Some b →
  i < j →
  ∃ p q, first_line_for (key_of a) lines p ∧
         first_line_for (key_of b) lines q ∧ p < q.
Proof.
  revert seen i j. induction lines as [|ln lines IH]; intros seen i j; simpl.
  - done.
  - assert (∀ seen' i j,
      dedup_from seen' (omap entry_of_line lines) !! i = Some a →
      dedup_from seen' (omap entry_of_line lines) !! j = Some b →
      i < j →
      (∀ e, entry_of_line ln = Some e → key_of e ∈ seen') →
      ∃ p q, first_line_for (key_of a) (ln :: lines) p ∧
             first_line_for (key_of b) (ln :: lines) q ∧ p < q) as Hshift.
    { intros seen' i' j' Ha Hb Hij Hln.
      destruct (IH _ _ _ Ha Hb Hij) as (p & q & Hp & Hq & Hpq).
      apply dedup_lines_member in Ha as [Ha _].
      apply dedup_lines_member in Hb as [Hb _].
      exists (S p), (S q). split; [|split; [|lia]].
      - apply first_line_for_skip; [done|]. intros e He ?. apply Hln in He. congruence.
      - apply first_line_for_skip; [done|]. intros e He ?. apply Hln in He. congruence. }
    destruct (entry_of_line ln) as [e|] eqn:He; simpl.
    + case_decide as Hseen.
      * intros Ha Hb Hij. apply (Hshift seen i j); try done.
        by intros e0 [= <-].
      * destruct i as [|i], j as [|j]; simpl; try (intros; lia).
        -- intros [= <-] Hb _.
           apply dedup_lines_member in Hb as (Hb & q & lq & Hq & _).
           apply fresh_after_insert in Hb as [Hne Hb].
           exists 0, (S q). split; [by apply first_line_for_here|].
           split; [|lia]. apply first_line_for_skip; [done|].
           intros e0 He0. rewrite He in He0. injection He0 as <-. congruence.
        -- intros Ha Hb Hij. apply (Hshift ({[key_of e]} ∪ seen) i j); try done.
           ++ lia.
           ++ intros e0 [= <-].
              apply elem_of_union. left. by apply elem_of_singleton.
    + intros Ha Hb Hij. apply (Hshift seen i j); done.
Qed.

Lemma dedup_lines_complete lines seen n ln e :
  lines !! n = Some ln → entry_of_line ln = Some e →
  key_of e ∈ seen ∨
  ∃ t, t ∈ dedup_from seen (omap entry_of_line lines) ∧ key_of t = key_of e.
Proof.
  revert seen n. induction lines as [|l0 lines IH]; intros seen n; [done|].
  destruct n as [|n]; simpl.
  - intros [= ->] He. rewrite He. simpl.
    case_decide; [by left|]. right. exists e. split; [apply list_elem_of_here | done].
  - intros Hn He. destruct (entry_of_line l0) as [e0|]; simpl.
    + case_decide as H0; [by apply (IH seen n)|].
      destruct (IH ({[key_of e0]} ∪ seen) n Hn He) as [Hin | (t & Ht & Hk)].
      * apply elem_of_union in Hin as [Hin%elem_of_singleton | Hin]; [|by left].
        right. exists e0. split; [apply list_elem_of_here | done].
      * right. exists t. split; [by apply list_elem_of_further | done].
    + by apply (IH seen n).
Qed.

(** ** The merge *)

(** C3: a raw line that holds a BadPatternSet substring anywhere in its
    original text, inline comment included, is bad for the pre-check of
    merge_and_write and yields no entry; the merge result is the one
    obtained without that line. *)
Theorem bad_line_dropped pre ln post pat :
  pat ∈ BAD_PATTERNS → substring pat ln →
  is_bad_line ln = true ∧
  entries_of (pre ++ ln :: post) = entries_of (pre ++ post) ∧
  merge (pre ++ ln :: post) = merge (pre ++ post).
Proof.
  intros Hpat Hsub.
  assert (is_bad_line ln = true) as Hbad.
  { apply is_bad_line_pattern, has_bad_pattern_spec. eauto. }
  assert (entries_of (pre ++ ln :: post) = entries_of (pre ++ post)) as Hent.
  { rewrite !entries_of_omap, !omap_app. simpl.
    unfold entry_of_line at 2. by rewrite Hbad. }
  split; [done|]. split; [done|]. unfold merge. by rewrite Hent.
Qed.

Lemma bad_line_dropped_witness :
  is_bad_line (lit "DOMAIN,ok.com  # see chat.z.ai") = true ∧
  entries_of [lit "DOMAIN,a.com"; lit "DOMAIN,ok.com  # see chat.z.ai"; lit "b.com"]
  = entries_of [lit "DOMAIN,a.com"; lit "b.com"] ∧
  merge [lit "DOMAIN,a.com"; lit "DOMAIN,ok.com  # see chat.z.ai"; lit "b.com"]
  = merge [lit "DOMAIN,a.com"; lit "b.com"].
Proof.
  apply (bad_line_dropped [lit "DOMAIN,a.com"]
           (lit "DOMAIN,ok.com  # see chat.z.ai") [lit "b.com"]
           (lit "chat.z.ai")).
  - do 2 apply list_elem_of_further. apply list_elem_of_here.
  - by exists (lit "DOMAIN,ok.com  # see "), [].
Defined.

(** C4: tokens at two different positions of the merge result have
    different keys [(lower ruleType, lower domain)]; Scenario A merges
    to the single token [(DOMAIN, example.com)]. *)
Theorem merge_keys_distinct :
  (∀ raw_lines i j t1 t2,
     merge raw_lines !! i = Some t1 → merge raw_lines !! j = Some t2 →
     i ≠ j → key_of t1 ≠ key_of t2) ∧
  merge [lit "DOMAIN,example.com"; lit "domain,EXAMPLE.com"; lit "# comment"; []]
  = [(lit "DOMAIN", lit "example.com")].
Proof.
  split; [|vm_compute; reflexivity].
  intros raw_lines i j t1 t2 H1 H2 Hij Hk.
  pose proof (dedup_from_NoDup ∅ (omap entry_of_line raw_lines)) as Hnd.
  rewrite <- merge_eq in Hnd.
  apply Hij. eapply NoDup_lookup; [exact Hnd | |].
  - rewrite list_lookup_fmap, H1. done.
  - rewrite list_lookup_fmap, H2. simpl. by rewrite Hk.
Qed.

Lemma merge_keys_distinct_witness :
  key_of (lit "DOMAIN", lit "a.com") ≠ key_of (lit "DOMAIN-SUFFIX", lit "A.com").
Proof.
  apply (proj1 merge_keys_distinct
           [lit "DOMAIN,a.com"; lit "domain,A.COM"; lit "domain-suffix,A.com"]
           0 1).
  - reflexivity.
  - reflexivity.
  - lia.
Defined.

(** C5: the merge result is in first-occurrence order. The tokens at
    positions [i < j] of the result have keys whose first raw lines
    (among the lines that pass the filters) are at positions [p < q];
    and the key of every entry is represented in the result. *)
Theorem merge_first_occurrence_order raw_lines :
  (∀ i j a b,
     merge raw_lines !! i = Some a → merge raw_lines !! j = Some b → i < j →
     ∃ p q, first_line_for (key_of a) raw_lines p ∧
            first_line_for (key_of b) raw_lines q ∧ p < q) ∧
  (∀ n ln e,
     raw_lines !! n = Some ln → entry_of_line ln = Some e →
     ∃ t, t ∈ merge raw_lines ∧ key_of t = key_of e).
Proof.
  rewrite merge_eq. split.
  - intros i j a b. apply dedup_lines_order.
  - intros n ln e Hn He.
    destruct (dedup_lines_complete raw_lines ∅ n ln e Hn He) as [Hin|Hex]; [|done].
    by apply not_elem_of_empty in Hin.
Qed.

Lemma merge_first_occurrence_order_witness :
  ∃ p q, first_line_for (key_of (lit "DOMAIN", lit "b.com"))
           [lit "b.com"; lit "DOMAIN,a.com"; lit "domain,B.COM"] p ∧
         first_line_for (key_of (lit "DOMAIN", lit "a.com"))
           [lit "b.com"; lit "DOMAIN,a.com"; lit "domain,B.COM"] q ∧ p < q.
Proof.
  apply (proj1 (merge_first_occurrence_order
                  [lit "b.com"; lit "DOMAIN,a.com"; lit "domain,B.COM"]) 0 1).
  - reflexivity.
  - reflexivity.
  - lia.
Defined.

Lemma entries_sublist_classified lines :
  omap entry_of_line lines `sublist_of` omap extract_domain_token lines.
Proof.
  induction lines as [|ln lines IH]; simpl; [constructor|].
  unfold entry_of_line at 1. destruct (is_bad_line ln).
  - destruct (extract_domain_token ln); [by apply sublist_cons | done].
  - destruct (extract_domain_token ln); [by apply sublist_skip | done].
Qed.

(** C9: the merge result is a subsequence of the tokens that
    extract_domain_token returns for the raw lines, and every emitted
    token is, character for character, the token classified from the
    first raw line that passes the filters with its key: lowercasing
    enters the keys only. *)
Theorem merge_emits_classified_tokens raw_lines :
  merge raw_lines `sublist_of` omap extract_domain_token raw_lines ∧
  (∀ t, t ∈ merge raw_lines →
        ∃ p ln, first_line_for (key_of t) raw_lines p ∧
                raw_lines !! p = Some ln ∧ is_bad_line ln = false ∧
                extract_domain_token ln = Some t).
Proof.
  rewrite merge_eq. split.
  - etrans; [apply dedup_from_sublist | apply entries_sublist_classified].
  - intros t [i Hi]%list_elem_of_lookup.
    apply dedup_lines_member in Hi as (_ & p & ln & Hf & Hp & He).
    exists p, ln. split; [done|]. split; [done|].
    unfold entry_of_line in He. by destruct (is_bad_line ln).
Qed.

Lemma merge_emits_classified_tokens_witness :
  ∃ p ln, first_line_for (key_of (lit "DOMAIN", lit "Example.COM"))
            [lit "# list"; lit "domain,Example.COM"; lit "DOMAIN,example.com"] p ∧
          [lit "# list"; lit "domain,Example.COM"; lit "DOMAIN,example.com"] !! p
          = Some ln ∧ is_bad_line ln = false ∧
          extract_domain_token ln = Some (lit "DOMAIN", lit "Example.COM").
Proof.
  apply (proj2 (merge_emits_classified_tokens
                  [lit "# list"; lit "domain,Example.COM"; lit "DOMAIN,example.com"])).
  apply list_elem_of_here.
Defined.

(** ** The shape of classified tokens *)

Lemma upper_char_hash' c : char_eqb "#" (upper_char c) = char_eqb "#" c.
Proof. by_cases_on_char c. Qed.

Lemma upper_idem s : upper (upper s) = upper s.
Proof.
  unfold upper. rewrite map_map. apply map_ext. intros c. apply upper_char_idem.
Qed.

Lemma has_char_comma_upper s : has_char "," (upper s) = has_char "," s.
Proof.
  unfold has_char, upper. induction s as [|c s IH]; [done|].
  cbn [map existsb]. by rewrite upper_char_comma, IH.
Qed.

Lemma has_char_sub c pre mid post :
  has_char c (pre ++ mid ++ post) = false → has_char c mid = false.
Proof.
  rewrite !has_char_app. destruct (has_char c mid); [|done].
  by rewrite orb_true_r.
Qed.

Lemma forallb_sub (P : ascii → bool) pre mid post :
  forallb P (pre ++ mid ++ post) = true → forallb P mid = true.
Proof.
  rewrite !forallb_app. by intros [_ [? _]%andb_true_iff]%andb_true_iff.
Qed.

Lemma match_ci_upper p s : match_ci p (upper s) = match_ci p s.
Proof.
  revert s. induction p as [|a p IH]; intros [|b s]; simpl; try done.
  by rewrite upper_char_idem, IH.
Qed.

Lemma match_any_ci_upper alts s :
  existsb (fun p => match_ci p (upper s)) alts
  = existsb (fun p => match_ci p s) alts.
Proof.
  induction alts as [|p alts IH]; [done|].
  cbn [existsb]. by rewrite match_ci_upper, IH.
Qed.

Lemma re_search_ci_upper alts s : re_search_ci alts (upper s) = re_search_ci alts s.
Proof.
  induction s as [|c s IH].
  - apply (f_equal (fun b => b || false)), (match_any_ci_upper alts []).
  - change (existsb (fun p => match_ci p (upper (c :: s))) alts
            || re_search_ci alts (upper s)
            = existsb (fun p => match_ci p (c :: s)) alts || re_search_ci alts s).
    by rewrite match_any_ci_upper, IH.
Qed.

Lemma ws_hash_here_app p q : ws_hash_here p = true → ws_hash_here (p ++ q) = true.
Proof.
  destruct p as [|c p]; simpl; [done|].
  intros [Hc H]%andb_true_iff. rewrite Hc. simpl.
  rewrite lstrip_app. by destruct (lstrip p).
Qed.

Lemma has_ws_hash_app_l a b : has_ws_hash a = true → has_ws_hash (a ++ b) = true.
Proof.
  induction a as [|c a IH]; [done|].
  change (has_ws_hash (c :: a)) with (ws_hash_here (c :: a) || has_ws_hash a).
  change (has_ws_hash ((c :: a) ++ b))
    with (ws_hash_here ((c :: a) ++ b) || has_ws_hash (a ++ b)).
  intros [H|H]%orb_true_iff.
  - by rewrite (ws_hash_here_app _ b H).
  - by rewrite IH, orb_true_r.
Qed.

Lemma has_ws_hash_app_r a b : has_ws_hash b = true → has_ws_hash (a ++ b) = true.
Proof.
  intros H. induction a as [|c a IH]; [done|].
  change (has_ws_hash ((c :: a) ++ b))
    with (ws_hash_here ((c :: a) ++ b) || has_ws_hash (a ++ b)).
  by rewrite IH, orb_true_r.
Qed.

Lemma has_ws_hash_sub pre mid post :
  has_ws_hash (pre ++ mid ++ post) = false → has_ws_hash mid = false.
Proof.
  intros H. destruct (has_ws_hash mid) eqn:Hm; [|done].
  rewrite <- H. symmetry. by apply has_ws_hash_app_r, has_ws_hash_app_l.
Qed.

Lemma has_ws_hash_re_split s : has_ws_hash (re_split_comment s) = false.
Proof.
  induction s as [|c s IH]; [done|].
  rewrite re_split_comment_cons.
  destruct (ws_hash_here (c :: s)) eqn:Hc; [done|].
  change (ws_hash_here (c :: re_split_comment s) || has_ws_hash (re_split_comment s)
          = false).
  rewrite IH, orb_false_r.
  destruct (ws_hash_here (c :: re_split_comment s)) eqn:Hc'; [|done].
  destruct (re_split_prefix s) as [q Hq].
  apply (ws_hash_here_app _ q) in Hc'. simpl app in Hc'.
  rewrite <- Hq in Hc'. congruence.
Qed.

Lemma ws_hash_here_upper s : ws_hash_here (upper s) = ws_hash_here s.
Proof.
  destruct s as [|c s]; simpl; [done|].
  rewrite isspace_upper_char. f_equal.
  change (map upper_char s) with (upper s). rewrite lstrip_upper.
  destruct (lstrip s); simpl; [done|]. apply upper_char_hash.
Qed.

Lemma has_ws_hash_upper s : has_ws_hash (upper s) = has_ws_hash s.
Proof.
  induction s as [|c s IH]; [done|].
  change (ws_hash_here (upper (c :: s)) || has_ws_hash (upper s)
          = ws_hash_here (c :: s) || has_ws_hash s).
  by rewrite ws_hash_here_upper, IH.
Qed.

Lemma has_ws_hash_join a c b :
  has_ws_hash a = false → has_ws_hash b = false →
  isspace c = false → char_eqb c "#" = false →
  has_ws_hash (a ++ c :: b) = false.
Proof.
  intros Ha Hb Hc Hh. induction a as [|x a IH].
  - change (ws_hash_here (c :: b) || has_ws_hash b = false).
    rewrite Hb, orb_false_r. simpl. by rewrite Hc.
  - change (ws_hash_here (x :: a) || has_ws_hash a = false) in Ha.
    apply orb_false_iff in Ha as [Hx Ha].
    change (ws_hash_here (x :: a ++ c :: b) || has_ws_hash (a ++ c :: b) = false).
    rewrite (IH Ha), orb_false_r. simpl in *.
    destruct (isspace x); [|done]. simpl in *.
    rewrite lstrip_app. destruct (lstrip a) as [|h ?]; simpl; [|done].
    by rewrite Hc.
Qed.

Lemma re_split_fix s : has_ws_hash s = false → re_split_comment s = s.
Proof.
  induction s as [|c s IH]; [done|].
  change (has_ws_hash (c :: s)) with (ws_hash_here (c :: s) || has_ws_hash s).
  intros [Hc Hs]%orb_false_iff.
  rewrite re_split_comment_cons, Hc. by rewrite IH.
Qed.

Lemma starts_hash_cons c s : startswith (lit "#") (c :: s) = char_eqb "#" c.
Proof. apply andb_true_r. Qed.

Lemma starts_hash_strip_prefix l x :
  lead_ok l = true → startswith (lit "#") (l ++ x) = false →
  startswith (lit "#") (upper (strip l)) = false.
Proof.
  intros Hl H. unfold strip. rewrite (lstrip_fix l Hl).
  destruct (rstrip_decomp l) as (ws & Hd & _).
  destruct (rstrip l) as [|c y]; [done|].
  rewrite Hd in H. change ((c :: y) ++ ws) with (c :: (y ++ ws)) in H.
  change (upper (c :: y)) with (upper_char c :: upper y).
  rewrite <- app_comm_cons, starts_hash_cons in H.
  by rewrite starts_hash_cons, upper_char_hash'.
Qed.

Lemma remainder_facts line :
  clean (strip (re_split_comment line)) = true ∧
  has_ws_hash (strip (re_split_comment line)) = false.
Proof.
  split; [apply clean_strip|].
  destruct (strip_decomp (re_split_comment line)) as (w1 & w2 & H & _).
  apply (has_ws_hash_sub w1 _ w2). rewrite <- H. apply has_ws_hash_re_split.
Qed.

(** The two ways in which extract_domain_token returns a token. *)
Lemma extract_Some line t d :
  extract_domain_token line = Some (t, d) →
  let r := strip (re_split_comment line) in
  is_bad_line r = false ∧
  ((∃ l rt, r = l ++ "," :: rt ∧ ("," ∉ l) ∧
            t = upper (strip l) ∧ d = strip rt ∧
            re_search_ip (strip l) = false) ∨
   (has_char "," r = false ∧ t = lit "DOMAIN" ∧ d = r)).
Proof.
  intros Hx r.
  destruct (is_bad_line r) eqn:Hbad; [by rewrite extract_bad in Hx|].
  split; [done|].
  rewrite (extract_unfold line Hbad) in Hx. fold r in Hx.
  destruct (has_char "," r) eqn:Hcomma.
  - left. apply has_char_spec, comma_split in Hcomma as (l & rt & Hr & Hl).
    exists l, rt. rewrite Hr, (split_comma_app l rt Hl) in Hx.
    cbn [fst snd] in Hx. cbv zeta in Hx.
    destruct (re_search_ip (strip l)) eqn:Hip; [done|].
    destruct (re_match_digits (strip rt)); [done|].
    by injection Hx as <- <-.
  - right. destruct (has_char " " r || has_char "/" r || has_char ":" r); [done|].
    by injection Hx as <- <-.
Qed.

Lemma extract_token_shape line t d :
  extract_domain_token line = Some (t, d) → token_shape t d.
Proof.
  intros (Hbad & Hcases)%extract_Some.
  destruct (remainder_facts line) as [Hclean Hws].
  set (r := strip (re_split_comment line)) in *.
  apply is_bad_line_false in Hbad as (Hne & Hpat & Hhash).
  rewrite (strip_fix r Hclean) in Hhash.
  destruct Hcases as [(l & rt & Hr & Hl & -> & -> & Hip) | (Hcomma & -> & ->)].
  - assert (has_ws_hash l = false) as Hwl.
    { apply (has_ws_hash_sub [] l ("," :: rt)). simpl. by rewrite <- Hr. }
    assert (has_ws_hash rt = false) as Hwr.
    { apply (has_ws_hash_sub (l ++ [","]) rt []).
      rewrite app_nil_r, <- app_assoc. simpl. by rewrite <- Hr. }
    destruct (strip_decomp l) as (w1 & w2 & Hdl & _).
    destruct (strip_decomp rt) as (v1 & v2 & Hdr & _).
    unfold token_shape. repeat split.
    + rewrite clean_upper. apply clean_strip.
    + apply clean_strip.
    + rewrite has_char_comma_upper. apply (has_char_sub _ w1 _ w2).
      rewrite <- Hdl. by apply has_char_false.
    + rewrite has_ws_hash_upper. apply (has_ws_hash_sub w1 _ w2). by rewrite <- Hdl.
    + apply (has_ws_hash_sub v1 _ v2). by rewrite <- Hdr.
    + apply (starts_hash_strip_prefix l ("," :: rt)); [|by rewrite <- Hr].
      apply andb_true_iff in Hclean as [Hlead _]. rewrite Hr in Hlead.
      by apply lead_ok_app_l in Hlead.
    + apply upper_idem.
    + unfold re_search_ip. by rewrite re_search_ci_upper.
  - unfold token_shape. repeat split; try reflexivity; done.
Qed.

Lemma extract_rendered_shape line t d :
  extract_domain_token line = Some (t, d) → rendered_shape t d.
Proof.
  intros (Hbad & Hcases)%extract_Some.
  destruct (remainder_facts line) as [Hclean Hws].
  set (r := strip (re_split_comment line)) in *.
  apply is_bad_line_false in Hbad as (Hne & Hpat & Hhash).
  rewrite (strip_fix r Hclean) in Hhash.
  destruct Hcases as [(l & rt & Hr & Hl & -> & -> & _) | (Hcomma & -> & ->)].
  - assert (has_ws_hash l = false) as Hwl.
    { apply (has_ws_hash_sub [] l ("," :: rt)). simpl. by rewrite <- Hr. }
    assert (has_ws_hash rt = false) as Hwr.
    { apply (has_ws_hash_sub (l ++ [","]) rt []).
      rewrite app_nil_r, <- app_assoc. simpl. by rewrite <- Hr. }
    destruct (strip_decomp l) as (w1 & w2 & Hdl & _).
    destruct (strip_decomp rt) as (v1 & v2 & Hdr & _).
    unfold rendered_shape. repeat split.
    + rewrite clean_upper. apply clean_strip.
    + apply clean_strip.
    + rewrite has_char_comma_upper. apply (has_char_sub _ w1 _ w2).
      rewrite <- Hdl. by apply has_char_false.
    + rewrite has_ws_hash_upper. apply (has_ws_hash_sub w1 _ w2). by rewrite <- Hdl.
    + apply (has_ws_hash_sub v1 _ v2). by rewrite <- Hdr.
    + apply (starts_hash_strip_prefix l ("," :: rt)); [|by rewrite <- Hr].
      apply andb_true_iff in Hclean as [Hlead _]. rewrite Hr in Hlead.
      by apply lead_ok_app_l in Hlead.
    + apply upper_idem.
  - unfold rendered_shape. repeat split; try reflexivity; done.
Qed.

(** The classification of a rendered line [TYPE,domain]: the bad-line
    test of the line, the keyword test of the type, the digit test of the
    domain. *)
Lemma extract_rendered_line t d :
  rendered_shape t d →
  extract_domain_token (to_surge_line t d) =
    if has_bad_pattern (to_surge_line t d) then None
    else if re_search_ip t then None
    else if re_match_digits d then None
    else Some (t, d).
Proof.
  intros (Ht & Hd & Hcomma & Hwt & Hwd & Hhash & Hup).
  unfold to_surge_line. set (L := t ++ "," :: d).
  assert (has_ws_hash L = false) as HwL by by apply has_ws_hash_join.
  assert (clean L = true) as HcL by by apply clean_join.
  assert (strip (re_split_comment L) = L) as HrL
    by by rewrite re_split_fix, strip_fix.
  destruct (has_bad_pattern L) eqn:Hbp.
  - apply extract_bad. rewrite HrL. by apply is_bad_line_pattern.
  - assert (is_bad_line L = false) as Hok.
    { apply is_bad_line_false. split; [subst L; by destruct t|]. split; [done|].
      rewrite strip_fix by done. subst L. destruct t as [|c t']; [reflexivity|].
      rewrite <- app_comm_cons, starts_hash_cons.
      by rewrite starts_hash_cons in Hhash. }
    pose proof (extract_unfold L) as Hx. cbv zeta in Hx.
    rewrite HrL in Hx. rewrite (Hx Hok). clear Hx.
    assert (has_char "," L = true) as ->.
    { apply has_char_spec, elem_of_app. right. apply list_elem_of_here. }
    subst L. rewrite split_comma_app by by apply has_char_false.
    cbn [fst snd]. rewrite !strip_fix by done.
    unfold token in *. by rewrite Hup.
Qed.

(** ** Lines without line boundaries *)

Lemma one_line_upper s : one_line (upper s) = one_line s.
Proof.
  unfold one_line, upper. induction s as [|c s IH]; [done|].
  cbn [map forallb]. by rewrite is_linebreak_upper_char, IH.
Qed.

Lemma extract_one_line line t d :
  extract_domain_token line = Some (t, d) → one_line line = true →
  one_line t = true ∧ one_line d = true.
Proof.
  intros (_ & Hcases)%extract_Some Hline.
  assert (one_line (strip (re_split_comment line)) = true) as Hr.
  { destruct (re_split_prefix line) as [q Hq].
    destruct (strip_decomp (re_split_comment line)) as (w1 & w2 & Hd & _).
    apply (forallb_sub _ w1 _ (w2 ++ q)).
    rewrite !app_assoc. rewrite <- (app_assoc w1). by rewrite <- Hd, <- Hq. }
  set (r := strip (re_split_comment line)) in *.
  destruct Hcases as [(l & rt & Hr' & Hl & -> & -> & Hip) | (Hcomma & -> & ->)];
    [|done].
  rewrite Hr' in Hr.
  destruct (strip_decomp l) as (w1 & w2 & Hdl & _).
  destruct (strip_decomp rt) as (v1 & v2 & Hdr & _).
  split.
  - rewrite one_line_upper. apply (forallb_sub _ w1 _ (w2 ++ "," :: rt)).
    rewrite !app_assoc. rewrite <- (app_assoc w1). by rewrite <- Hdl.
  - apply (forallb_sub _ (l ++ "," :: v1) _ v2).
    rewrite <- app_assoc. simpl. by rewrite <- Hdr.
Qed.

Lemma splitlines_plain c s :
  is_linebreak c = false →
  splitlines (c :: s) =
  match splitlines s with [] => [[c]] | l :: ls => (c :: l) :: ls end.
Proof. intros H. simpl. by rewrite H. Qed.

Lemma splitlines_newline rest : splitlines ("010" :: rest) = [] :: splitlines rest.
Proof. by destruct rest. Qed.

Lemma splitlines_line l rest :
  one_line l = true → splitlines (l ++ "010" :: rest) = l :: splitlines rest.
Proof.
  induction l as [|c l IH]; [intros _; apply splitlines_newline|].
  intros [Hc Hl]%andb_true_iff. apply negb_true_iff in Hc.
  rewrite <- app_comm_cons, (splitlines_plain _ _ Hc). by rewrite IH.
Qed.

Lemma splitlines_join ls :
  Forall (fun l => one_line l = true) ls → ls ≠ [] →
  splitlines (join_nl ls ++ ["010"]) = ls.
Proof.
  induction ls as [|l ls IH]; [done|]. intros [Hl Hls]%Forall_cons _.
  destruct ls as [|l2 ls].
  - simpl. by rewrite splitlines_line.
  - change (join_nl (l :: l2 :: ls)) with (l ++ "010" :: join_nl (l2 :: ls)).
    rewrite <- app_assoc, <- app_comm_cons, splitlines_line by done.
    by rewrite IH.
Qed.

Lemma splitlines_one_line s : Forall (fun l => one_line l = true) (splitlines s).
Proof.
  enough (∀ n s, length s ≤ n → Forall (fun l => one_line l = true) (splitlines s))
    as H by by apply (H (length s)).
  clear s. induction n as [|n IH]; intros s Hn.
  - destruct s; [constructor | simpl in Hn; lia].
  - destruct s as [|c s]; [constructor|]. simpl in Hn.
    destruct (is_linebreak c) eqn:Hc.
    + simpl. rewrite Hc. constructor; [done|].
      destruct s as [|d s'']; [constructor|]. simpl in Hn.
      destruct (char_eqb c "013" && char_eqb d "010"); apply IH; simpl; lia.
    + rewrite splitlines_plain by done.
      assert (Forall (fun l => one_line l = true) (splitlines s)) as Hs
        by (apply IH; lia).
      destruct (splitlines s) as [|l ls].
      * constructor; [|constructor]. simpl. by rewrite Hc.
      * apply Forall_cons in Hs as [Hl Hls]. constructor; [|done].
        simpl. by rewrite Hc.
Qed.

Lemma rstrip_nl_one_line s : one_line s = true → one_line (rstrip_nl s) = true.
Proof.
  assert (∀ x, ∃ nl, x = nl ++ lstrip_nl x) as Hdec.
  { induction x as [|c x [nl Hx]]; simpl; [by exists []|].
    destruct (char_eqb c "010"); [|by exists []].
    exists (c :: nl). simpl. by f_equal. }
  intros Hs. unfold rstrip_nl. destruct (Hdec (rev s)) as [nl Hnl].
  unfold one_line. rewrite forallb_rev_eq.
  apply (forallb_sub _ nl _ []). rewrite app_nil_r, <- Hnl.
  by rewrite forallb_rev_eq.
Qed.

(** The raw lines that the loader hands to the merge hold no line
    boundary. *)
Lemma loaded_lines_one_line sources :
  Forall (fun l => one_line l = true) (load_lines_from_sources sources).
Proof.
  unfold load_lines_from_sources.
  enough (∀ acc, Forall (fun l => one_line l = true) acc →
    Forall (fun l => one_line l = true)
      (fold_left (fun lines src =>
                    match src with
                    | None => lines
                    | Some text => lines ++ map rstrip_nl (splitlines text)
                    end) sources acc)) as H by (apply H; constructor).
  induction sources as [|src sources IH]; intros acc Hacc; simpl; [done|].
  apply IH. destruct src as [text|]; [|done].
  apply Forall_app. split; [done|].
  pose proof (splitlines_one_line text) as Hsl.
  induction Hsl as [|l ls Hl _ IHls]; simpl; constructor; [|done].
  by apply rstrip_nl_one_line.
Qed.

(** ** Reading the Surge text back *)

Lemma merge_from_line raw_lines u :
  u ∈ merge raw_lines →
  ∃ ln, ln ∈ raw_lines ∧ extract_domain_token ln = Some u.
Proof.
  rewrite merge_eq. intros [i Hi]%list_elem_of_lookup.
  apply dedup_lines_member in Hi as (_ & p & ln & _ & Hp & He).
  exists ln. split; [by eapply list_elem_of_lookup_2|].
  unfold entry_of_line in He. by destruct (is_bad_line ln).
Qed.

Lemma omap_map_compose {A B C} (f : B → option C) (g : A → B) l :
  omap f (map g l) = omap (fun x => f (g x)) l.
Proof.
  induction l as [|x l IH]; simpl; [done|].
  destruct (f (g x)); [f_equal|]; exact IH.
Qed.

Lemma reclassify_surge_text uniq :
  Forall (fun u : token => one_line u.1 = true ∧ one_line u.2 = true) uniq →
  reclassify (surge_text uniq)
  = omap (fun u => extract_domain_token (to_surge_line u.1 u.2)) uniq.
Proof.
  intros Hall. unfold reclassify, surge_text.
  destruct uniq as [|u uniq]; [done|].
  rewrite splitlines_join; [apply omap_map_compose | | done].
  induction Hall as [|[t d] us [Ht Hd] _ IH]; simpl; constructor; [|done].
  unfold to_surge_line, one_line in *. simpl in *.
  by rewrite forallb_app, Ht; simpl; rewrite Hd.
Qed.

(** C8, as stated, does not hold: the line
    [this_ruleset_is_made_by_sukkaw.ruleset.skk.moe] is merged to the
    token [(DOMAIN, this_ruleset_is_made_by_sukkaw.ruleset.skk.moe)];
    its rendered line passes every rejection the claim lists, but it is a
    BadPatternSet entry, so reading the Surge text back loses the
    token. *)
Lemma surge_round_trip_loses_rendered_bad_pattern :
  ¬ (∀ raw_lines tk,
       Forall (fun l => one_line l = true) raw_lines →
       tk ∈ merge raw_lines →
       fails_listed_heuristics (to_surge_line tk.1 tk.2) = false →
       tk ∈ reclassify (surge_text (merge raw_lines))).
Proof.
  intros H.
  specialize (H [lit "this_ruleset_is_made_by_sukkaw.ruleset.skk.moe"]
                (lit "DOMAIN", lit "this_ruleset_is_made_by_sukkaw.ruleset.skk.moe")).
  assert (reclassify
            (surge_text
               (merge [lit "this_ruleset_is_made_by_sukkaw.ruleset.skk.moe"]))
          = []) as Hnone by (vm_compute; reflexivity).
  rewrite Hnone in H. eapply elem_of_nil, H.
  - repeat constructor.
  - apply list_elem_of_here.
  - vm_compute. reflexivity.
Qed.

(** C8, amended: for raw lines as the loader produces them (no line
    boundary inside a line), splitting the Surge text of the merge
    result into lines and classifying each line yields exactly those
    tokens of the merge result whose rendered line the classifier
    accepts: the rendered line holds no BadPatternSet substring, the
    type passes the IP-type keyword test, and the domain does not begin
    with digits followed by [.] or [:]. Each of them comes back
    unchanged; the tokens of the merge result that fail one of the three
    tests are lost, and no other token appears. *)
Theorem surge_round_trip raw_lines tk :
  Forall (fun l => one_line l = true) raw_lines →
  (tk ∈ reclassify (surge_text (merge raw_lines)) ↔
   tk ∈ merge raw_lines ∧
   has_bad_pattern (to_surge_line tk.1 tk.2) = false ∧
   re_search_ip tk.1 = false ∧
   re_match_digits tk.2 = false).
Proof.
  intros Hlines.
  assert (∀ u, u ∈ merge raw_lines →
               rendered_shape u.1 u.2 ∧ one_line u.1 = true ∧ one_line u.2 = true)
    as Hmerge.
  { intros [t d] (ln & Hln & Hx)%merge_from_line. split.
    - by apply (extract_rendered_shape ln).
    - apply (extract_one_line ln); [done|].
      rewrite Forall_forall in Hlines. by apply Hlines. }
  rewrite reclassify_surge_text
    by (apply Forall_forall; intros u Hu; by apply Hmerge).
  rewrite list_elem_of_omap. split.
  - intros (u & Hu & Hx).
    rewrite (extract_rendered_line u.1 u.2) in Hx by by apply Hmerge.
    destruct (has_bad_pattern (to_surge_line u.1 u.2)) eqn:Hbp; [done|].
    destruct (re_search_ip u.1) eqn:Hip; [done|].
    destruct (re_match_digits u.2) eqn:Hdig; [done|].
    injection Hx as <-. by destruct u.
  - intros (Hin & Hbp & Hip & Hdig). exists tk. split; [done|].
    rewrite (extract_rendered_line tk.1 tk.2) by by apply Hmerge.
    rewrite Hbp, Hip, Hdig. by destruct tk.
Qed.

Lemma surge_round_trip_witness :
  (lit "DOMAIN-SUFFIX", lit "a.com")
  ∈ reclassify (surge_text (merge [lit "domain-suffix, a.com"; lit "1.example.com"])).
Proof.
  apply (surge_round_trip [lit "domain-suffix, a.com"; lit "1.example.com"]
           (lit "DOMAIN-SUFFIX", lit "a.com")).
  - repeat constructor.
  - split; [apply list_elem_of_here | repeat split; reflexivity].
Defined.

(** ** Original line and remainder *)

Lemma lstrip_hash p x :
  lstrip p = "#" :: x → p = "#" :: x ∨ ws_hash_here p = true.
Proof.
  destruct p as [|c p]; [done|]. simpl.
  destruct (isspace c); [|by left].
  intros ->. by right.
Qed.

Lemma starts_hash_true s : startswith (lit "#") s = true → ∃ x, s = "#" :: x.
Proof. intros [post ->]%startswith_spec. by exists post. Qed.

(** A line that passes the bad-line test has a remainder that passes it
    too, unless the remainder is empty: for extract_domain_token the
    bad-line test of the remainder is the stronger one. *)
Lemma remainder_survives line :
  is_bad_line line = false →
  strip (re_split_comment line) ≠ [] →
  is_bad_line (strip (re_split_comment line)) = false.
Proof.
  intros (Hne & Hpat & Hhash)%is_bad_line_false Hr.
  destruct (re_split_prefix line) as [q Hq].
  destruct (strip_decomp (re_split_comment line)) as (w1 & w2 & Hd & _).
  set (p := re_split_comment line) in *. set (r := strip p) in *.
  apply is_bad_line_false. split; [done|]. split.
  - destruct (has_bad_pattern r) eqn:Hbp; [|done].
    apply has_bad_pattern_spec in Hbp as (pat & Hin & pre & post & Hsub).
    rewrite <- Hpat. symmetry. apply has_bad_pattern_spec.
    exists pat. split; [done|]. exists (w1 ++ pre), (post ++ w2 ++ q).
    rewrite Hq, Hd, Hsub. by rewrite <- !app_assoc.
  - rewrite (strip_fix r) by apply clean_strip.
    destruct (startswith (lit "#") r) eqn:Hs; [|done].
    apply starts_hash_true in Hs as [x Hx].
    destruct (rstrip_decomp (lstrip p)) as (ws & Hl & _).
    change (rstrip (lstrip p)) with r in Hl. rewrite Hx in Hl.
    apply lstrip_hash in Hl as [Hp | Hp].
    + exfalso. rewrite Hp in Hq.
      assert (lead_ok line = true) as Hlead by by rewrite Hq.
      unfold strip in Hhash. rewrite (lstrip_fix line Hlead) in Hhash.
      destruct (rstrip_decomp line) as (ws' & Hl' & Hws').
      destruct (rstrip line) as [|c y].
      * rewrite Hl' in Hq. simpl in Hq. rewrite Hq in Hws'. done.
      * rewrite Hl' in Hq. injection Hq as -> _. done.
    + exfalso. pose proof (has_ws_hash_re_split line) as Hno. fold p in Hno.
      destruct p as [|c p']; [done|].
      change (ws_hash_here (c :: p') || has_ws_hash p' = false) in Hno.
      by rewrite Hp in Hno.
Qed.

(** ** Scenarios *)

Example scenario_B :
  merge [lit "IP-CIDR,1.2.3.4/32"; lit "DOMAIN-SUFFIX,good.com"]
  = [(lit "DOMAIN-SUFFIX", lit "good.com")].
Proof. vm_compute. reflexivity. Qed.

Example scenario_C :
  merge [lit "chat.z.ai"] = [] ∧ merge [lit "DOMAIN-SUFFIX,chat.z.ai"] = [].
Proof. split; vm_compute; reflexivity. Qed.

Example comment_stripped :
  extract_domain_token (lit " domain-suffix , 1a.com  # x")
  = Some (lit "DOMAIN-SUFFIX", lit "1a.com").
Proof. reflexivity. Qed.

Example ip_rule_rejected :
  extract_domain_token (lit "ip-cidr , 1.2.3.4/32") = None.
Proof. reflexivity. Qed.

Example digit_prefix_lost_on_round_trip :
  merge [lit "1.example.com"] = [(lit "DOMAIN", lit "1.example.com")] ∧
  reclassify (surge_text (merge [lit "1.example.com"])) = [].
Proof. split; vm_compute; reflexivity. Qed.

Example splitlines_crlf :
  splitlines (lit "a" ++ "013" :: "010" :: lit "b" ++ ["010"]) = [lit "a"; lit "b"].
Proof. vm_compute. reflexivity. Qed.

Example load_skips_failed_source :
  load_lines_from_sources
    [Some (lit "a.com" ++ ["010"]); None; Some (lit "b.com")]
  = [lit "a.com"; lit "b.com"].
Proof. vm_compute. reflexivity. Qed.

(** * Further properties of the code *)

(** ** load_lines_from_sources *)

Lemma load_flat sources :
  load_lines_from_sources sources
  = flat_map (fun src =>
                match src with
                | None => []
                | Some text => map rstrip_nl (splitlines text)
                end) sources.
Proof.
  unfold load_lines_from_sources.
  enough (∀ acc,
    fold_left (fun lines src =>
                 match src with
                 | None => lines
                 | Some text => lines ++ map rstrip_nl (splitlines text)
                 end) sources acc
    = acc ++ flat_map (fun src =>
                         match src with
                         | None => []
                         | Some text => map rstrip_nl (splitlines text)
                         end) sources) as H by apply H.
  induction sources as [|src sources IH]; intros acc; simpl.
  - by rewrite app_nil_r.
  - rewrite IH. destruct src; [by rewrite <- app_assoc | done].
Qed.

Lemma rstrip_nl_fix l : one_line l = true → rstrip_nl l = l.
Proof.
  intros Hl. unfold rstrip_nl.
  assert (lstrip_nl (rev l) = rev l) as ->; [|apply rev_involutive].
  unfold one_line in Hl. rewrite <- forallb_rev_eq in Hl.
  destruct (rev l) as [|c x]; [done|]. simpl in *.
  destruct (char_eqb c "010") eqn:Hc; [|done].
  apply char_eqb_eq in Hc. by subst c.
Qed.

Lemma map_rstrip_nl_splitlines text :
  map rstrip_nl (splitlines text) = splitlines text.
Proof.
  pose proof (splitlines_one_line text) as H.
  induction H as [|l ls Hl _ IH]; simpl; [done|].
  by rewrite (rstrip_nl_fix l Hl), IH.
Qed.

(** X1: no raw line that the loader returns holds a line boundary
    character (LF, VT, FF, CR, FS, GS, RS), whatever the sources hold. *)
Theorem loaded_lines_hold_no_line_boundary sources l c :
  l ∈ load_lines_from_sources sources → c ∈ l → is_linebreak c = false.
Proof.
  intros Hl Hc.
  pose proof (loaded_lines_one_line sources) as Hall.
  rewrite Forall_forall in Hall. specialize (Hall l Hl).
  unfold one_line in Hall. rewrite forallb_forall in Hall.
  apply negb_true_iff, Hall. by apply list_elem_of_In.
Qed.

Lemma loaded_lines_hold_no_line_boundary_witness : is_linebreak "b" = false.
Proof.
  apply (loaded_lines_hold_no_line_boundary
           [Some (lit "a" ++ "013" :: "010" :: lit "b")] (lit "b") "b").
  - apply list_elem_of_further, list_elem_of_here.
  - apply list_elem_of_here.
Defined.

(** X2: the loader concatenates the lines of its sources in source
    order, and a source that could not be read contributes nothing: the
    lines are those of the remaining sources. *)
Theorem load_in_source_order a b :
  load_lines_from_sources (a ++ b)
  = load_lines_from_sources a ++ load_lines_from_sources b ∧
  load_lines_from_sources (a ++ None :: b) = load_lines_from_sources (a ++ b).
Proof.
  rewrite !load_flat. split.
  - apply flat_map_app.
  - by rewrite !flat_map_app.
Qed.

(** X3: the call [ln.rstrip('\n')] of the loader changes no line: the
    loaded lines are exactly the [splitlines] of the readable sources. *)
Theorem load_rstrip_is_identity sources :
  load_lines_from_sources sources
  = flat_map (fun src =>
                match src with None => [] | Some text => splitlines text end)
             sources.
Proof.
  rewrite load_flat. induction sources as [|src sources IH]; simpl; [done|].
  rewrite IH. destruct src; [by rewrite map_rstrip_nl_splitlines | done].
Qed.

(** X4: reading back a file written as ['\n'.join(lines) + '\n'], the
    format of both output files, returns the written lines when there is
    at least one line and no line holds a line boundary. *)
Theorem load_reads_back_written_lines ls :
  ls ≠ [] → Forall (fun l => one_line l = true) ls →
  load_lines_from_sources [Some (join_nl ls ++ ["010"])] = ls.
Proof.
  intros Hne Hall. rewrite load_flat. simpl. rewrite app_nil_r.
  by rewrite map_rstrip_nl_splitlines, splitlines_join.
Qed.

Lemma load_reads_back_written_lines_witness :
  load_lines_from_sources
    [Some (join_nl [lit "DOMAIN,a.com"; []; lit "DOMAIN,b.com"] ++ ["010"])]
  = [lit "DOMAIN,a.com"; []; lit "DOMAIN,b.com"].
Proof.
  apply (load_reads_back_written_lines [lit "DOMAIN,a.com"; []; lit "DOMAIN,b.com"]).
  - done.
  - repeat constructor.
Defined.

(** ** is_bad_line and extract_domain_token *)

Lemma lstrip_all_space s : forallb isspace s = true → lstrip s = [].
Proof.
  induction s as [|c s IH]; simpl; [done|].
  intros [-> H]%andb_true_iff. by apply IH.
Qed.

Lemma lstrip_space_app w s : forallb isspace w = true → lstrip (w ++ s) = lstrip s.
Proof. intros H. by rewrite lstrip_app, (lstrip_all_space w H). Qed.

Lemma rstrip_app_space y tail :
  forallb isspace tail = true → rstrip (y ++ tail) = rstrip y.
Proof.
  intros H. unfold rstrip. rewrite rev_app_distr, lstrip_space_app; [done|].
  by rewrite forallb_rev_eq.
Qed.

Lemma strip_app_space p tail :
  forallb isspace tail = true → strip (p ++ tail) = strip p.
Proof.
  intros H. unfold strip. rewrite lstrip_app.
  destruct (lstrip p) as [|c y] eqn:Hp.
  - by rewrite (lstrip_all_space tail H).
  - by rewrite rstrip_app_space.
Qed.

Lemma strip_space_app w p :
  forallb isspace w = true → strip (w ++ p) = strip p.
Proof. intros H. unfold strip. by rewrite lstrip_space_app. Qed.

Lemma bad_patterns_not_blank line :
  forallb isspace line = true → has_bad_pattern line = false.
Proof.
  intros Hws. destruct (has_bad_pattern line) eqn:Hbp; [|done].
  apply has_bad_pattern_spec in Hbp as (pat & Hin & pre & post & ->).
  apply forallb_sub in Hws.
  repeat (apply elem_of_cons in Hin as [-> | Hin]; [by vm_compute in Hws|]).
  by apply elem_of_nil in Hin.
Qed.

(** The value of extract_domain_token is a function of the remainder. *)
Lemma extract_by_remainder l1 l2 :
  strip (re_split_comment l1) = strip (re_split_comment l2) →
  extract_domain_token l1 = extract_domain_token l2.
Proof.
  intros Heq. destruct (is_bad_line (strip (re_split_comment l1))) eqn:Hbad.
  - rewrite (extract_bad l1 Hbad). rewrite Heq in Hbad.
    by rewrite (extract_bad l2 Hbad).
  - rewrite (extract_unfold l1 Hbad). rewrite Heq in Hbad.
    rewrite (extract_unfold l2 Hbad). cbv zeta. by rewrite Heq.
Qed.

(** X5: a line of whitespace only is not bad for is_bad_line, and
    extract_domain_token returns None for it: merge_and_write drops it in
    the classifier, not in the pre-check. *)
Theorem blank_line_unclassified line :
  line ≠ [] → forallb isspace line = true →
  is_bad_line line = false ∧ extract_domain_token line = None.
Proof.
  intros Hne Hws.
  assert (strip line = []) as Hstrip by by apply strip_nil_iff.
  split.
  - apply is_bad_line_false. split; [done|].
    split; [by apply bad_patterns_not_blank | by rewrite Hstrip].
  - unfold extract_domain_token. rewrite Hstrip. simpl.
    by rewrite orb_true_r.
Qed.

Lemma blank_line_unclassified_witness :
  is_bad_line (lit "   ") = false ∧ extract_domain_token (lit "   ") = None.
Proof. apply (blank_line_unclassified (lit "   ")); done. Defined.

Lemma re_split_append_comment line w ws c :
  has_ws_hash line = false → isspace w = true → forallb isspace ws = true →
  ∃ tail, forallb isspace tail = true ∧
          line = re_split_comment (line ++ w :: ws ++ "#" :: c) ++ tail.
Proof.
  intros Hno Hw Hws. induction line as [|x l IH].
  - exists []. split; [done|]. simpl. rewrite Hw. simpl.
    rewrite lstrip_space_app by done. simpl. done.
  - change (ws_hash_here (x :: l) || has_ws_hash l = false) in Hno.
    apply orb_false_iff in Hno as [Hx Hl].
    rewrite <- app_comm_cons, re_split_comment_cons.
    destruct (ws_hash_here (x :: l ++ w :: ws ++ "#" :: c)) eqn:Hhere.
    + exists (x :: l). split; [|done].
      simpl in Hhere, Hx. apply andb_true_iff in Hhere as [Hsx Hhead].
      rewrite Hsx in Hx. simpl in *. rewrite Hsx. simpl.
      rewrite lstrip_app in Hhead.
      destruct (lstrip l) as [|h y] eqn:Hls.
      * destruct (lstrip_decomp l) as (sp & Hsp & Hall).
        rewrite Hls, app_nil_r in Hsp. by subst sp.
      * simpl in Hhead. congruence.
    + destruct (IH Hl) as (tail & Htail & Heq).
      exists tail. split; [done|]. simpl. by f_equal.
Qed.

(** X6: appending an inline comment (whitespace, then [#], then any
    text) to a line that holds no inline comment yet does not change what
    extract_domain_token returns. *)
Theorem inline_comment_ignored line w ws c :
  has_ws_hash line = false → isspace w = true → forallb isspace ws = true →
  extract_domain_token (line ++ w :: ws ++ "#" :: c) = extract_domain_token line.
Proof.
  intros Hno Hw Hws. apply extract_by_remainder.
  destruct (re_split_append_comment line w ws c Hno Hw Hws) as (tail & Ht & Heq).
  rewrite (re_split_fix line Hno). rewrite Heq at 2.
  by rewrite strip_app_space.
Qed.

Lemma inline_comment_ignored_witness :
  extract_domain_token (lit "DOMAIN-SUFFIX,a.com" ++ " " :: lit " " ++ "#" :: lit " cdn")
  = extract_domain_token (lit "DOMAIN-SUFFIX,a.com").
Proof.
  apply (inline_comment_ignored (lit "DOMAIN-SUFFIX,a.com") " " (lit " ") (lit " cdn"));
    reflexivity.
Defined.

Lemma has_ws_hash_all_space w : forallb isspace w = true → has_ws_hash w = false.
Proof.
  induction w as [|c w IH]; [done|]. intros [Hc Hw]%andb_true_iff.
  change (ws_hash_here (c :: w) || has_ws_hash w = false).
  rewrite (IH Hw), orb_false_r. simpl.
  by rewrite (lstrip_all_space w Hw), andb_false_r.
Qed.

Lemma ws_hash_here_app_space s w :
  forallb isspace w = true → s ≠ [] → ws_hash_here (s ++ w) = ws_hash_here s.
Proof.
  intros Hw Hs. destruct s as [|c l]; [done|]. simpl. f_equal.
  rewrite lstrip_app. destruct (lstrip l); [|done].
  by rewrite (lstrip_all_space w Hw).
Qed.

Lemma re_split_app_space line w :
  forallb isspace w = true →
  ∃ tail, forallb isspace tail = true ∧
          re_split_comment (line ++ w) = re_split_comment line ++ tail.
Proof.
  intros Hw. induction line as [|c l (tail & Htail & IH)].
  - exists w. split; [done|]. simpl.
    by apply re_split_fix, has_ws_hash_all_space.
  - rewrite <- app_comm_cons, !re_split_comment_cons.
    rewrite app_comm_cons, (ws_hash_here_app_space (c :: l) w Hw) by done.
    destruct (ws_hash_here (c :: l)).
    + by exists [].
    + exists tail. split; [done|]. simpl. by rewrite IH.
Qed.

Lemma starts_comment_space_app w line :
  forallb isspace w = true → starts_comment (w ++ line) = starts_comment line.
Proof. intros Hw. unfold starts_comment. by rewrite lstrip_space_app. Qed.

Lemma re_split_space_app w line :
  forallb isspace w = true → starts_comment line = false →
  re_split_comment (w ++ line) = w ++ re_split_comment line.
Proof.
  intros Hw Hc. induction w as [|c w IH]; [done|].
  apply andb_true_iff in Hw as [Hsc Hw].
  rewrite <- app_comm_cons, re_split_comment_cons.
  assert (ws_hash_here (c :: w ++ line) = false) as ->.
  { simpl. rewrite Hsc. simpl. rewrite lstrip_space_app by done. exact Hc. }
  simpl. by rewrite IH.
Qed.

(** A line whose first character after leading whitespace is [#] yields
    no token. *)
Lemma comment_line_unclassified line :
  starts_comment line = true → extract_domain_token line = None.
Proof.
  unfold starts_comment. intros Hc.
  destruct (lstrip line) as [|h x] eqn:Hl; [done|].
  apply char_eqb_eq in Hc. subst h.
  apply extract_bad. apply lstrip_hash in Hl as [-> | Hhere].
  - rewrite re_split_comment_cons.
    change (ws_hash_here ("#" :: x)) with false. cbv iota.
    assert (∃ r, strip ("#" :: re_split_comment x) = "#" :: r) as [r Hr].
    { unfold strip. rewrite (lstrip_fix ("#" :: re_split_comment x)) by done.
      destruct (rstrip_decomp ("#" :: re_split_comment x)) as (ws & Hd & Hws).
      destruct (rstrip ("#" :: re_split_comment x)) as [|c r].
      - simpl in Hd. by rewrite <- Hd in Hws.
      - exists r. by injection Hd as <- _. }
    pose proof (strip_idem ("#" :: re_split_comment x)) as Hidem.
    rewrite Hr in Hidem |- *. unfold is_bad_line.
    destruct (existsb _ _); [done|]. by rewrite Hidem.
  - destruct line as [|c l]; [done|].
    by rewrite re_split_comment_cons, Hhere.
Qed.

(** X7: whitespace around a line does not change what
    extract_domain_token returns. *)
Theorem surrounding_space_ignored w1 line w2 :
  forallb isspace w1 = true → forallb isspace w2 = true →
  extract_domain_token (w1 ++ line ++ w2) = extract_domain_token line.
Proof.
  intros H1 H2.
  assert (extract_domain_token (line ++ w2) = extract_domain_token line) as Htrail.
  { apply extract_by_remainder.
    destruct (re_split_app_space line w2 H2) as (tail & Htail & ->).
    by apply strip_app_space. }
  rewrite <- Htrail.
  destruct (starts_comment (line ++ w2)) eqn:Hc.
  - rewrite (comment_line_unclassified _ Hc).
    apply comment_line_unclassified. by rewrite starts_comment_space_app.
  - apply extract_by_remainder.
    rewrite re_split_space_app by done. by apply strip_space_app.
Qed.

Lemma surrounding_space_ignored_witness :
  extract_domain_token (lit "  " ++ lit "domain,a.com # x" ++ lit " ")
  = extract_domain_token (lit "domain,a.com # x").
Proof.
  apply (surrounding_space_ignored (lit "  ") (lit "domain,a.com # x") (lit " "));
    reflexivity.
Defined.

(** X8: the pre-check of merge_and_write changes the outcome of a line
    only through the bad patterns: for a line without a BadPatternSet
    substring, the entry is what extract_domain_token returns. *)
Theorem precheck_only_adds_bad_patterns ln :
  has_bad_pattern ln = false → entry_of_line ln = extract_domain_token ln.
Proof.
  intros Hpat. unfold entry_of_line.
  destruct (is_bad_line ln) eqn:Hbad; [|done]. symmetry.
  destruct ln as [|c l]; [done|].
  apply comment_line_unclassified.
  unfold is_bad_line in Hbad. fold (has_bad_pattern (c :: l)) in Hbad.
  rewrite Hpat in Hbad.
  destruct (startswith (lit "#") (strip (c :: l))) eqn:Hs; [|done].
  apply starts_hash_true in Hs as [x Hx].
  destruct (rstrip_decomp (lstrip (c :: l))) as (ws & Hd & _).
  change (rstrip (lstrip (c :: l))) with (strip (c :: l)) in Hd.
  unfold starts_comment. rewrite Hd, Hx. reflexivity.
Qed.

Lemma precheck_only_adds_bad_patterns_witness :
  entry_of_line (lit " # DOMAIN,a.com") = extract_domain_token (lit " # DOMAIN,a.com").
Proof. apply (precheck_only_adds_bad_patterns (lit " # DOMAIN,a.com")). reflexivity. Defined.

(** X9: every token that extract_domain_token returns is in normal
    form: its type is upper case and holds no comma, and neither field
    has whitespace at its ends; when the line holds ASCII characters
    only, the type holds none of the IP-type keywords in any case. *)
Theorem extracted_token_normal_form line t d :
  extract_domain_token line = Some (t, d) →
  upper t = t ∧ strip t = t ∧ strip d = d ∧ ("," ∉ t) ∧
  (forallb is_ascii line = true →
   ¬ (∃ kw, kw ∈ IP_ALTERNATIVES ∧ ci_substring kw t)).
Proof.
  intros (Ht & Hd & Hcomma & _ & _ & _ & Hup & Hip)%extract_token_shape.
  split; [done|]. split; [by apply strip_fix|]. split; [by apply strip_fix|].
  split; [by apply has_char_false|].
  intros _ Hex. apply re_search_ip_spec in Hex. congruence.
Qed.

Lemma extracted_token_normal_form_witness :
  upper (lit "DOMAIN-KEYWORD") = lit "DOMAIN-KEYWORD" ∧
  strip (lit "DOMAIN-KEYWORD") = lit "DOMAIN-KEYWORD" ∧
  strip (lit "cdn") = lit "cdn" ∧ ("," ∉ lit "DOMAIN-KEYWORD") ∧
  ¬ (∃ kw, kw ∈ IP_ALTERNATIVES ∧ ci_substring kw (lit "DOMAIN-KEYWORD")).
Proof.
  destruct (extracted_token_normal_form
              (lit " domain-keyword ,  cdn  # k")
              (lit "DOMAIN-KEYWORD") (lit "cdn"))
    as (H1 & H2 & H3 & H4 & H5); [reflexivity|].
  split; [exact H1|]. split; [exact H2|]. split; [exact H3|].
  split; [exact H4|]. apply H5. reflexivity.
Defined.

(** ** The loops of merge_and_write, continued *)

Lemma seen_insert_known (k : token) (ks seen : gset token) :
  k ∈ seen → ({[ k ]} ∪ ks) ∪ seen = ks ∪ seen.
Proof.
  intros Hk. apply set_eq. intros x.
  rewrite !elem_of_union, elem_of_singleton. split.
  - intros [[-> | ?] | ?]; auto.
  - intros [? | ?]; auto.
Qed.

Lemma seen_insert_shift (k : token) (ks seen : gset token) :
  ks ∪ ({[ k ]} ∪ seen) = ({[ k ]} ∪ ks) ∪ seen.
Proof.
  apply set_eq. intros x. rewrite !elem_of_union, elem_of_singleton. tauto.
Qed.

Lemma dedup_from_app seen a b :
  dedup_from seen (a ++ b)
  = dedup_from seen a ++ dedup_from (list_to_set (key_of <$> a) ∪ seen) b.
Proof.
  revert seen. induction a as [|x a IH]; intros seen.
  - simpl. by rewrite union_empty_l_L.
  - rewrite fmap_cons, list_to_set_cons. simpl.
    case_decide as Hx.
    + by rewrite IH, seen_insert_known.
    + rewrite IH, seen_insert_shift. done.
Qed.

Lemma dedup_from_all_seen seen b :
  (∀ e, e ∈ b → key_of e ∈ seen) → dedup_from seen b = [].
Proof.
  intros Hb. induction b as [|e b IH]; simpl; [done|].
  case_decide as He.
  - apply IH. intros e' He'. apply Hb. by apply list_elem_of_further.
  - destruct He. apply Hb. apply list_elem_of_here.
Qed.

Lemma dedup_from_idem seen entries :
  dedup_from seen (dedup_from seen entries) = dedup_from seen entries.
Proof.
  revert seen. induction entries as [|e es IH]; intros seen; simpl; [done|].
  case_decide as He; [apply IH|].
  simpl. case_decide; [done|]. by rewrite IH.
Qed.

Lemma dedup_from_keys seen entries e :
  e ∈ entries → key_of e ∈ seen ∨
  ∃ e', e' ∈ dedup_from seen entries ∧ key_of e' = key_of e.
Proof.
  revert seen. induction entries as [|x es IH]; intros seen; [by intros ?%elem_of_nil|].
  intros [-> | He]%elem_of_cons; simpl.
  - case_decide; [by left|]. right. exists x. split; [apply list_elem_of_here | done].
  - case_decide as Hx; [by apply IH|].
    destruct (IH ({[key_of x]} ∪ seen) He) as [Hin | (e' & He' & Hk)].
    + apply elem_of_union in Hin as [Hin%elem_of_singleton | Hin]; [|by left].
      right. exists x. split; [apply list_elem_of_here | done].
    + right. exists e'. split; [by apply list_elem_of_further | done].
Qed.

Lemma sublist_elem (l1 l2 : list token) e : l1 `sublist_of` l2 → e ∈ l1 → e ∈ l2.
Proof.
  induction 1 as [|x l1 l2 _ IH|x l1 l2 _ IH]; [done| |].
  - intros [-> | ?]%elem_of_cons; [apply list_elem_of_here|].
    by apply list_elem_of_further, IH.
  - intros ?. by apply list_elem_of_further, IH.
Qed.

(** X10: the deduplication loop is idempotent: run on its own result it
    returns that result. *)
Theorem uniq_of_idempotent entries : uniq_of (uniq_of entries) = uniq_of entries.
Proof. rewrite !uniq_of_dedup. apply dedup_from_idem. Qed.

(** X11: raw lines appended after the others only extend the merge
    result: the result for the first lines is a prefix of the result for
    all lines, so later sources never remove or reorder earlier tokens. *)
Theorem merge_prefix_stable l1 l2 : merge l1 `prefix_of` merge (l1 ++ l2).
Proof.
  rewrite !merge_eq, omap_app, dedup_from_app.
  by eexists.
Qed.

(** X12: raw lines whose entries all have keys already produced by the
    earlier lines add nothing to the merge result; in particular a list
    of lines merged twice in a row gives the result of merging it once. *)
Theorem merge_absorbs_known_keys l1 l2 :
  ((∀ ln e, ln ∈ l2 → entry_of_line ln = Some e →
            ∃ e', e' ∈ merge l1 ∧ key_of e' = key_of e) →
   merge (l1 ++ l2) = merge l1) ∧
  merge (l1 ++ l1) = merge l1.
Proof.
  assert (∀ l2, (∀ ln e, ln ∈ l2 → entry_of_line ln = Some e →
                         ∃ e', e' ∈ merge l1 ∧ key_of e' = key_of e) →
                merge (l1 ++ l2) = merge l1) as Hgen.
  { clear l2. intros l2 Hknown.
    rewrite !merge_eq, omap_app, dedup_from_app.
    rewrite (dedup_from_all_seen (list_to_set _ ∪ ∅)); [by rewrite app_nil_r|].
    intros e (ln & Hln & He)%list_elem_of_omap.
    destruct (Hknown ln e Hln He) as (e' & He' & Hk).
    rewrite merge_eq in He'. apply elem_of_union. left.
    apply elem_of_list_to_set, list_elem_of_fmap. exists e'. split; [done|].
    by apply (sublist_elem _ _ _ (dedup_from_sublist ∅ _)). }
  split; [apply Hgen|]. apply Hgen.
  intros ln e Hln He. rewrite merge_eq.
  assert (e ∈ omap entry_of_line l1) as Hin
    by (apply list_elem_of_omap; eauto).
  destruct (dedup_from_keys ∅ _ e Hin) as [Hempty | Hex]; [|done].
  by apply not_elem_of_empty in Hempty.
Qed.

Lemma merge_absorbs_known_keys_witness :
  merge ([lit "DOMAIN,a.com"; lit "b.com"] ++ [lit "domain,B.COM"; lit "# end"])
  = merge [lit "DOMAIN,a.com"; lit "b.com"].
Proof.
  apply (proj1 (merge_absorbs_known_keys
                  [lit "DOMAIN,a.com"; lit "b.com"]
                  [lit "domain,B.COM"; lit "# end"])).
  intros ln e Hln He.
  apply elem_of_cons in Hln as [-> | Hln].
  - injection He as <-. exists (lit "DOMAIN", lit "b.com").
    split; [|reflexivity]. apply list_elem_of_further, list_elem_of_here.
  - apply elem_of_cons in Hln as [-> | Hln]; [discriminate|].
    by apply elem_of_nil in Hln.
Defined.

Lemma extract_all_space line :
  forallb isspace line = true → extract_domain_token line = None.
Proof.
  intros Hws. unfold extract_domain_token.
  assert (strip line = []) as -> by by apply strip_nil_iff.
  simpl. by rewrite orb_true_r.
Qed.

(** X13: empty lines, lines of whitespace only and comment lines (first
    character after leading whitespace is [#]) never change the merge
    result, wherever they stand among the raw lines. *)
Theorem merge_ignores_blank_and_comment_lines pre ln post :
  forallb isspace ln = true ∨ starts_comment ln = true →
  merge (pre ++ ln :: post) = merge (pre ++ post).
Proof.
  intros Hln.
  assert (entry_of_line ln = None) as Hnone.
  { unfold entry_of_line. destruct (is_bad_line ln); [done|].
    destruct Hln as [Hws | Hc];
      [by apply extract_all_space | by apply comment_line_unclassified]. }
  rewrite !merge_eq, !omap_app. simpl. by rewrite Hnone.
Qed.

Lemma merge_ignores_blank_and_comment_lines_witness :
  merge ([lit "a.com"] ++ lit "   # mirrors" :: [lit "b.com"])
  = merge ([lit "a.com"] ++ [lit "b.com"]).
Proof.
  apply (merge_ignores_blank_and_comment_lines
           [lit "a.com"] (lit "   # mirrors") [lit "b.com"]).
  right. reflexivity.
Defined.

(** ** Rendering, continued *)

Lemma lower_char_idem c : lower_char (lower_char c) = lower_char c.
Proof. by_cases_on_char c. Qed.

Lemma lower_char_comma c : char_eqb "," (lower_char c) = char_eqb "," c.
Proof. by_cases_on_char c. Qed.

Lemma lower_idem s : lower (lower s) = lower s.
Proof.
  unfold lower. rewrite map_map. apply map_ext. intros c. apply lower_char_idem.
Qed.

Lemma has_char_comma_lower s : has_char "," (lower s) = has_char "," s.
Proof.
  unfold has_char, lower. induction s as [|c s IH]; [done|].
  cbn [map existsb]. by rewrite lower_char_comma, IH.
Qed.

Lemma surge_line_inj t1 d1 t2 d2 :
  "," ∉ t1 → "," ∉ t2 →
  to_surge_line t1 d1 = to_surge_line t2 d2 → t1 = t2 ∧ d1 = d2.
Proof.
  unfold to_surge_line. intros H1 H2 Heq.
  pose proof (split_comma_app t1 d1 H1) as Hs1.
  rewrite Heq, (split_comma_app t2 d2 H2) in Hs1. by injection Hs1 as <- <-.
Qed.

Lemma merged_type_no_comma raw_lines e : e ∈ merge raw_lines → "," ∉ e.1.
Proof.
  destruct e as [t d]. intros (ln & _ & Hx)%merge_from_line.
  apply extract_token_shape in Hx as (_ & _ & Hcomma & _).
  by apply has_char_false.
Qed.

(** X14: the lines of the Surge output are pairwise different, even when
    compared without regard to case. *)
Theorem surge_lines_distinct raw_lines :
  NoDup ((fun e => lower (to_surge_line e.1 e.2)) <$> merge raw_lines).
Proof.
  pose proof (dedup_from_NoDup ∅ (omap entry_of_line raw_lines)) as Hkeys.
  rewrite <- merge_eq in Hkeys.
  apply NoDup_fmap_2_strong; [|by apply NoDup_fmap_1 in Hkeys].
  intros e1 e2 H1 H2 Heq.
  assert (key_of e1 = key_of e2) as Hk.
  { apply merged_type_no_comma in H1, H2. destruct e1 as [t1 d1], e2 as [t2 d2].
    unfold to_surge_line, lower in Heq. simpl in *.
    rewrite !map_app in Heq. simpl in Heq.
    apply (surge_line_inj (lower t1) (lower d1) (lower t2) (lower d2)) in Heq
      as [Ht Hd].
    - unfold key_of. simpl. by rewrite Ht, Hd.
    - apply has_char_false. rewrite has_char_comma_lower. by apply has_char_false.
    - apply has_char_false. rewrite has_char_comma_lower. by apply has_char_false. }
  apply list_elem_of_lookup in H1 as [i Hi], H2 as [j Hj].
  assert (i = j) as ->.
  { eapply NoDup_lookup; [exact Hkeys | |].
    - exact (eq_trans (list_lookup_fmap key_of _ i) (f_equal (fmap key_of) Hi)).
    - rewrite Hk.
      exact (eq_trans (list_lookup_fmap key_of _ j) (f_equal (fmap key_of) Hj)). }
  congruence.
Qed.

(** X15: the type that to_qx_line writes is always lower case, for
    mapped and unmapped token types alike; the domain is copied
    unchanged after the comma. *)
Theorem qx_type_is_lower_case t d :
  ∃ q, to_qx_line t d = q ++ "," :: d ∧ lower q = q.
Proof.
  unfold to_qx_line. cbv zeta. rewrite dict_get_qx. unfold qx_type_spec.
  eexists. split; [reflexivity|].
  repeat case_decide; try reflexivity. apply lower_idem.
Qed.

(** X16: when no raw line of the group yields an entry (every source
    failed, or the sources hold comments and rejected rules only),
    merge_and_write writes a single newline to both files. *)
Theorem no_entries_newline_only sources :
  (∀ ln, ln ∈ load_lines_from_sources sources → entry_of_line ln = None) →
  merge_and_write sources = (["010"], ["010"]).
Proof.
  intros Hnone. unfold merge_and_write.
  assert (merge (load_lines_from_sources sources) = []) as ->; [|done].
  rewrite merge_eq.
  assert (omap entry_of_line (load_lines_from_sources sources) = []) as ->; [|done].
  induction (load_lines_from_sources sources) as [|ln lines IH]; [done|].
  simpl. rewrite (Hnone ln) by apply list_elem_of_here.
  apply IH. intros ln' Hln'. apply Hnone. by apply list_elem_of_further.
Qed.

Lemma no_entries_newline_only_witness :
  merge_and_write [None; Some (lit "# rules" ++ "010" :: lit "IP-CIDR,10.0.0.0/8")]
  = (["010"], ["010"]).
Proof.
  apply (no_entries_newline_only
           [None; Some (lit "# rules" ++ "010" :: lit "IP-CIDR,10.0.0.0/8")]).
  intros ln Hln.
  apply elem_of_cons in Hln as [-> | Hln]; [reflexivity|].
  apply elem_of_cons in Hln as [-> | Hln]; [reflexivity|].
  by apply elem_of_nil in Hln.
Defined.

(** ** crawl_and_mirror: the local path *)

(** X17: for a URL path [/p] whose second character is not [/], and a
    destination directory that is not empty and does not end with [/],
    the local path is [dest/p]: only the leading slash of the URL path is
    removed, the remote directory structure is kept under [dest]. *)
Theorem mirror_path_keeps_remote_structure dest p :
  dest ≠ [] → ends_with_slash dest = false → startswith (lit "/") p = false →
  mirror_local_path dest ("/" :: p) = dest ++ "/" :: p.
Proof.
  intros Hne Hend Hp. unfold mirror_local_path.
  change (find_slash ("/" :: p)) with (Some 0). cbv beta iota zeta.
  change (drop (0 + 1) ("/" :: p)) with p.
  unfold path_join. rewrite Hp, Hend. by destruct dest.
Qed.

Lemma mirror_path_keeps_remote_structure_witness :
  mirror_local_path (lit "List") (lit "/List/domainset/cdn.conf")
  = lit "List/List/domainset/cdn.conf".
Proof.
  apply (mirror_path_keeps_remote_structure (lit "List") (lit "List/domainset/cdn.conf"));
    done.
Defined.

Lemma find_slash_app pre x :
  "/" ∉ pre → find_slash (pre ++ "/" :: x) = Some (length pre).
Proof.
  induction pre as [|c pre IH]; [done|].
  intros [Hc Hpre]%not_elem_of_cons.
  rewrite <- app_comm_cons. cbn [find_slash].
  assert (char_eqb c "/" = false) as -> by (apply char_eqb_neq; congruence).
  by rewrite (IH Hpre).
Qed.

Lemma relpath_after_first_slash pre x :
  "/" ∉ pre →
  match find_slash (pre ++ "/" :: x) with
  | Some idx => drop (idx + 1) (pre ++ "/" :: x)
  | None => basename (pre ++ "/" :: x)
  end = x.
Proof.
  intros Hpre. rewrite (find_slash_app pre x Hpre).
  induction pre as [|c pre IH]; [done|].
  apply not_elem_of_cons in Hpre as [_ Hpre]. simpl. by apply IH.
Qed.

(** X18: when the text after the first [/] of the URL path begins with
    [/] itself (a path that starts with two slashes, for one), the local
    path is that absolute text: the destination directory is discarded
    and the file is written outside it. *)
Theorem mirror_path_double_slash_escapes dest pre q :
  "/" ∉ pre →
  mirror_local_path dest (pre ++ "/" :: "/" :: q) = "/" :: q.
Proof.
  intros Hpre. unfold mirror_local_path.
  rewrite (relpath_after_first_slash pre ("/" :: q) Hpre). reflexivity.
Qed.

Lemma mirror_path_double_slash_escapes_witness :
  mirror_local_path (lit "List") (lit "//etc/rules.conf") = lit "/etc/rules.conf".
Proof.
  apply (mirror_path_double_slash_escapes (lit "List") [] (lit "etc/rules.conf")).
  apply not_elem_of_nil.
Defined.

(** ** The keys of a merge *)

Lemma merge_keys_spec raw_lines k :
  k ∈ key_of <$> merge raw_lines ↔
  ∃ ln e, ln ∈ raw_lines ∧ entry_of_line ln = Some e ∧ key_of e = k.
Proof.
  rewrite merge_eq. split.
  - intros (e & -> & He)%list_elem_of_fmap.
    apply (sublist_elem _ _ _ (dedup_from_sublist ∅ _)) in He.
    apply list_elem_of_omap in He as (ln & Hln & He). by exists ln, e.
  - intros (ln & e & Hln & He & <-).
    assert (e ∈ omap entry_of_line raw_lines) as Hin
      by (apply list_elem_of_omap; eauto).
    destruct (dedup_from_keys ∅ _ e Hin) as [Hempty | (e' & He' & Hk)].
    + by apply not_elem_of_empty in Hempty.
    + apply list_elem_of_fmap. by exists e'.
Qed.

(** X19: which keys a merge result holds does not depend on the order
    of the raw lines: two permutations of the same lines give results
    with the same keys (the order and the letter case of the tokens may
    differ). *)
Theorem merge_keys_independent_of_order l1 l2 k :
  l1 ≡ₚ l2 →
  (k ∈ key_of <$> merge l1 ↔ k ∈ key_of <$> merge l2).
Proof.
  intros Hperm. rewrite !merge_keys_spec.
  split; intros (ln & e & Hln & He); exists ln, e; split; try done.
  - by rewrite <- Hperm.
  - by rewrite Hperm.
Qed.

Lemma merge_keys_independent_of_order_witness :
  (lit "domain", lit "a.com") ∈ key_of <$> merge [lit "DOMAIN,A.com"; lit "b.com"] ↔
  (lit "domain", lit "a.com") ∈ key_of <$> merge [lit "b.com"; lit "DOMAIN,A.com"].
Proof.
  apply (merge_keys_independent_of_order
           [lit "DOMAIN,A.com"; lit "b.com"] [lit "b.com"; lit "DOMAIN,A.com"]).
  apply Permutation_swap.
Defined.
